(** * 3D-Anatomy-Browser: the viewer, the two-panel synchronised view and the quiz

    A shallow embedding of the JavaScript of [Education/3D-Anatomy-Browser]:
    - [js/main.js]: the single-model browser (loader, progress bar, pointer
      selection);
    - the two-panel synchronised display (two canvases, two cameras, the
      [syncEnabled] flag, the animation loop and the [change] listeners);
    - the quiz scripts ([upperlimb_quiz.js] and its lower-limb twin).

    The rendering library (three.js: [Box3], [OrbitControls], [Raycaster],
    [GLTFLoader]) is not part of the repository.  What it reports to the
    scripts (the measured bounding box of a loaded scene, the list of ray
    hits, the pose an orbit gesture produces) enters the model as input. *)

From Stdlib Require Import QArith Qminmax Floats ZArith List String Ascii Bool Arith Lia.
Import ListNotations.

Set Implicit Arguments.

(** ** JavaScript numbers

    The scripts compute with IEEE binary64 numbers.  The code of the loader
    is written once over an interface [Number] and read at two instances:
    exact rationals [Q], where the algebraic laws hold and the general
    theorems are proved (rounding is left out), and the kernel's binary64
    [float], where concrete runs are evaluated bit for bit. *)

Class Number (A : Type) : Type := {
  lit  : Z -> positive -> A;   (* the literal n/d, e.g. 0.75 = 3/4 *)
  nadd : A -> A -> A;
  nsub : A -> A -> A;
  nmul : A -> A -> A;
  ndiv : A -> A -> A;
  nmax : A -> A -> A;          (* Math.max on two arguments *)
  nopp : A -> A;               (* unary minus *)
  neqb : A -> A -> bool;       (* === on numbers *)
  nleb : A -> A -> bool        (* <= on numbers *)
}.

#[export] Instance Number_Q : Number Q := {
  lit n d := Qmake n d;
  nadd := Qplus;
  nsub := Qminus;
  nmul := Qmult;
  ndiv := Qdiv;                (* faithful for a non-zero divisor only *)
  nmax := Qmax;
  nopp := Qopp;
  neqb := Qeq_bool;
  nleb := Qle_bool
}.

Definition float_of_Z (z : Z) : float :=
  match z with
  | Z0 => PrimFloat.zero
  | Zpos p => PrimFloat.of_uint63 (Uint63.of_Z (Zpos p))
  | Zneg p => PrimFloat.opp (PrimFloat.of_uint63 (Uint63.of_Z (Zpos p)))
  end.

(** [Math.max]: NaN if an argument is NaN, else the larger one. *)
Definition float_max (x y : float) : float :=
  if PrimFloat.is_nan x || PrimFloat.is_nan y then PrimFloat.nan
  else if PrimFloat.ltb x y then y else x.

#[export] Instance Number_float : Number float := {
  lit n d := PrimFloat.div (float_of_Z n) (float_of_Z (Zpos d));
  nadd := PrimFloat.add;
  nsub := PrimFloat.sub;
  nmul := PrimFloat.mul;
  ndiv := PrimFloat.div;
  nmax := float_max;
  nopp := PrimFloat.opp;
  neqb := PrimFloat.eqb;
  nleb := PrimFloat.leb
}.

Definition int {A} `{Number A} (n : Z) : A := lit n 1.

(** ** Vectors, quaternions, cameras *)

Record Vector3 (A : Type) : Type := vec3 { vx : A; vy : A; vz : A }.
Record Quaternion (A : Type) : Type := quat { qx : A; qy : A; qz : A; qw : A }.

Section Geometry.
Context {A : Type} `{Number A}.

  (** [Vector3.add] *)
Definition vadd (a b : Vector3 A) : Vector3 A :=
    vec3 (nadd (vx a) (vx b)) (nadd (vy a) (vy b)) (nadd (vz a) (vz b)).

Definition vsub (a b : Vector3 A) : Vector3 A :=
    vec3 (nsub (vx a) (vx b)) (nsub (vy a) (vy b)) (nsub (vz a) (vz b)).

Definition vscale (t : A) (a : Vector3 A) : Vector3 A :=
    vec3 (nmul t (vx a)) (nmul t (vy a)) (nmul t (vz a)).

  (** Squared Euclidean length, [Vector3.lengthSq]. *)
Definition lengthSq (a : Vector3 A) : A :=
    nadd (nadd (nmul (vx a) (vx a)) (nmul (vy a) (vy a))) (nmul (vz a) (vz a)).

  (** The quaternion a fresh [Object3D] has: no rotation. *)
Definition identityQuaternion : Quaternion A :=
    quat (int 0) (int 0) (int 0) (int 1).

  (** The direction a camera faces: the local -Z axis turned by its
      quaternion ([Vector3.applyQuaternion] at (0,0,-1), as
      [Camera.getWorldDirection] does). *)
Definition forward (q : Quaternion A) : Vector3 A :=
    let two := int 2 in
    vec3 (nsub (int 0) (nmul two (nadd (nmul (qx q) (qz q)) (nmul (qw q) (qy q)))))
         (nmul two (nsub (nmul (qw q) (qx q)) (nmul (qy q) (qz q))))
         (nsub (nadd (nmul (qx q) (qx q)) (nmul (qy q) (qy q)))
               (nadd (nmul (qz q) (qz q)) (nmul (qw q) (qw q)))).
End Geometry.

(** A camera's pose: what the synchroniser copies. *)
Record Camera (A : Type) : Type := mkCamera {
  position : Vector3 A;
  quaternion : Quaternion A
}.

(** What [Box3] reports for a loaded [gltf.scene], before any scaling:
    [getSize], [getCenter] and the radius of [getBoundingSphere]. *)
Record Gltf (A : Type) : Type := mkGltf {
  objectSize : Vector3 A;
  objectPosition : Vector3 A;
  objectRadius : A
}.

(** [style.display] of an element; [DisplayUnset] is the empty inline style,
    where the style sheet decides. *)
Inductive Display : Type := DisplayUnset | DisplayBlock | DisplayNone.

Section Scaling.
Context {A : Type} `{Number A}.

Definition desiredSize : A := int 2.

  (** [Math.max(objectSize.x, objectSize.y, objectSize.z)] *)
Definition maxDimension (g : Gltf A) : A :=
    nmax (nmax (vx (objectSize g)) (vy (objectSize g))) (vz (objectSize g)).

  (** [scaleToFit = desiredSize / maxDimension; scaleFactor *= scaleToFit],
      starting from the base factor [base]. *)
Definition scaleToFit (g : Gltf A) : A := ndiv desiredSize (maxDimension g).
Definition applyScaleToFit (base : A) (g : Gltf A) : A := nmul base (scaleToFit g).

  (** [objectPosition.clone().add(new THREE.Vector3(0, 0, cameraDistance))] *)
Definition cameraPlacement (g : Gltf A) (cameraDistance : A) : Vector3 A :=
    vadd (objectPosition g) (vec3 (int 0) (int 0) cameraDistance).
End Scaling.

(** ** Handlers with an execution trace

    Every handler of the two-panel view runs to completion inside one
    callback.  A handler is a state transformer that also returns the list of
    the primitive statements it executed, each with the state it started in,
    so that a property of the states a statement runs in can be stated. *)

Module Cmd.
Section Cmd.
Variables (St Act : Type).

Definition t : Type := St -> list (Act * St) * St.

Definition skip : t := fun s => ([], s).
Definition prim (a : Act) (f : St -> St) : t := fun s => ([(a, s)], f s).
Definition seq (c1 c2 : t) : t :=
      fun s => let (t1, s1) := c1 s in
               let (t2, s2) := c2 s1 in (t1 ++ t2, s2).
Definition when (b : St -> bool) (c : t) : t :=
      fun s => if b s then c s else skip s.
Definition ifte (b : St -> bool) (c1 c2 : t) : t :=
      fun s => if b s then c1 s else c2 s.

Definition run (c : t) (s : St) : St := snd (c s).
Definition trace (c : t) (s : St) : list (Act * St) := fst (c s).
End Cmd.
Arguments skip {St Act}.
Arguments prim {St Act}.
Arguments seq {St Act}.
Arguments when {St Act}.
Arguments ifte {St Act}.
Arguments run {St Act}.
Arguments trace {St Act}.
End Cmd.

Declare Scope cmd_scope.
Delimit Scope cmd_scope with cmd.
Notation "c1 ;; c2" := (Cmd.seq c1 c2) (at level 61, right associativity) : cmd_scope.

(** ** The two-panel synchronised display *)

Module SyncView.

Inductive Viewport : Type := V1 | V2.

Definition other (v : Viewport) : Viewport :=
    match v with V1 => V2 | V2 => V1 end.

  (** [syncButton.style.backgroundColor]; the style sheet starts it white. *)
Inductive Color : Type := White | Green | Red.

  (** The primitive statements of the handlers. *)
Inductive Action : Type :=
  | RequestAnimationFrame
  | SetEnabled (v : Viewport) (b : bool)
  | CopyPosition (dst src : Viewport)
  | CopyQuaternion (dst src : Viewport)
  | Render (v : Viewport)
  | FlipSync
  | PaintButton
  | MoveCamera (v : Viewport).

Definition isCopy (a : Action) : bool :=
    match a with
    | CopyPosition _ _ | CopyQuaternion _ _ => true
    | _ => false
    end.

Section Page.
Context {A : Type} `{Number A}.

Inductive SceneNode : Type :=
    | AmbientLight (intensity : A) (at_ : Vector3 A)
    | DirectionalLight (intensity : A) (at_ : Vector3 A)
    | Model (g : Gltf A) (scale : Vector3 A).

    (** The part of [OrbitControls] the script reads and writes. *)
Record Controls : Type := mkControls {
      enabled : bool;
      target : Vector3 A;
      enableDamping : bool;
      dampingFactor : A
    }.

    (** What one call of [loadModel] returns: [{ scene, camera, renderer,
        controls }] (the renderer holds no state of interest). *)
Record View : Type := mkView {
      scene : list SceneNode;
      camera : Camera A;
      controls : Controls
    }.

    (** The module-level variables and the DOM elements the script touches. *)
Record State : Type := mkState {
      view1 : View;
      view2 : View;
      objects : list (Gltf A);
      syncEnabled : bool;
      modelsLoaded : nat;
      spinner : Display;
      syncButton : Color
    }.

Definition view (v : Viewport) (s : State) : View :=
      match v with V1 => view1 s | V2 => view2 s end.

Definition setView (v : Viewport) (w : View) (s : State) : State :=
      match v with
      | V1 => mkState w (view2 s) (objects s) (syncEnabled s) (modelsLoaded s)
                      (spinner s) (syncButton s)
      | V2 => mkState (view1 s) w (objects s) (syncEnabled s) (modelsLoaded s)
                      (spinner s) (syncButton s)
      end.

Definition setCamera (c : Camera A) (w : View) : View :=
      mkView (scene w) c (controls w).
Definition setControls (k : Controls) (w : View) : View :=
      mkView (scene w) (camera w) k.
Definition setSpinner (d : Display) (s : State) : State :=
      mkState (view1 s) (view2 s) (objects s) (syncEnabled s) (modelsLoaded s)
              d (syncButton s).

Definition cameraOf (v : Viewport) (s : State) : Camera A := camera (view v s).
Definition enabledOf (v : Viewport) (s : State) : bool :=
      enabled (controls (view v s)).

Definition showSpinner : State -> State := setSpinner DisplayBlock.
Definition hideSpinner : State -> State := setSpinner DisplayNone.

    (** *** [loadModel]: the synchronous part *)

    (** The scene, camera and controls [loadModel] builds before the asset
        arrives. *)
Definition newView (zoomFactor ambientLightIntensity : A) : View :=
      mkView
        [ AmbientLight ambientLightIntensity (vec3 (int 0) (int 0) (int 10));
          DirectionalLight (lit 1 2) (vec3 (int 0) (int 1) (int 1));
          DirectionalLight (lit 1 2) (vec3 (int 0) (int 1) (int (-1))) ]
        (mkCamera (vec3 (int 0) (int 0) (nmul (int 5) zoomFactor))
                  identityQuaternion)
        (mkControls true (vec3 (int 0) (int 0) (int 0)) true (lit 1 4)).

Definition loadModel (v : Viewport) (zoomFactor ambientLightIntensity : A)
      (s : State) : State :=
      setView v (newView zoomFactor ambientLightIntensity) (showSpinner s).

    (** *** [loadModel]: the completion callback of [loader.load]

        No progress and no error callback is passed in this view. *)
Definition scaleFactor (g : Gltf A) : A := applyScaleToFit (int 1) g.

Definition cameraDistance (g : Gltf A) (zoomFactor : A) : A :=
      nmul (nmul (objectRadius g) (int 2)) zoomFactor.

Definition onLoad (v : Viewport) (zoomFactor : A) (g : Gltf A) (s : State)
      : State :=
      let w := view v s in
      let k := scaleFactor g in
      let w' :=
        mkView (scene w ++ [Model g (vec3 k k k)])
               (mkCamera (cameraPlacement g (cameraDistance g zoomFactor))
                         (quaternion (camera w)))
               (mkControls (enabled (controls w)) (objectPosition g)
                           (enableDamping (controls w))
                           (dampingFactor (controls w))) in
      let s1 := setView v w' s in
      let n := S (modelsLoaded s1) in
      let s2 := mkState (view1 s1) (view2 s1) (objects s1 ++ [g])
                        (syncEnabled s1) n (spinner s1) (syncButton s1) in
      if Nat.eqb n 2 then hideSpinner s2 else s2.

(** *** The handlers *)

Local Open Scope cmd_scope.

Definition Handler : Type := Cmd.t State Action.

Definition setEnabled (v : Viewport) (b : bool) : Handler :=
  Cmd.prim (SetEnabled v b)
    (fun s => let w := view v s in
              setView v (setControls
                           (mkControls b (target (controls w))
                              (enableDamping (controls w))
                              (dampingFactor (controls w))) w) s).

(** [camera_dst.position.copy(camera_src.position)] *)
Definition copyPosition (dst src : Viewport) : Handler :=
  Cmd.prim (CopyPosition dst src)
    (fun s => let w := view dst s in
              setView dst (setCamera (mkCamera (position (cameraOf src s))
                                               (quaternion (camera w))) w) s).

(** [camera_dst.quaternion.copy(camera_src.quaternion)] *)
Definition copyQuaternion (dst src : Viewport) : Handler :=
  Cmd.prim (CopyQuaternion dst src)
    (fun s => let w := view dst s in
              setView dst (setCamera (mkCamera (position (camera w))
                                               (quaternion (cameraOf src s))) w) s).

(** Drawing and scheduling the next frame change none of the modelled
    state. *)
Definition render (v : Viewport) : Handler := Cmd.prim (Render v) (fun s => s).
Definition requestAnimationFrame : Handler :=
  Cmd.prim RequestAnimationFrame (fun s => s).

(** [animate]: one animation tick. *)
Definition animate : Handler :=
  requestAnimationFrame ;;
  Cmd.when syncEnabled
    (setEnabled V1 false ;;
     setEnabled V2 false ;;
     copyPosition V2 V1 ;;
     copyQuaternion V2 V1 ;;
     setEnabled V1 true ;;
     setEnabled V2 true) ;;
  render V1 ;;
  render V2.

Definition paintButton : Handler :=
  Cmd.prim PaintButton
    (fun s => mkState (view1 s) (view2 s) (objects s) (syncEnabled s)
                      (modelsLoaded s) (spinner s)
                      (if syncEnabled s then Green else Red)).

(** [toggleSync]: the click listener of the sync button. *)
Definition toggleSync : Handler :=
  Cmd.prim FlipSync
    (fun s => mkState (view1 s) (view2 s) (objects s) (negb (syncEnabled s))
                      (modelsLoaded s) (spinner s) (syncButton s)) ;;
  paintButton.

Definition initSyncButton : Handler := paintButton.

(** The [change] listeners of [controls1] and [controls2]. *)
Definition onChange1 : Handler :=
  Cmd.when syncEnabled (copyPosition V2 V1 ;; copyQuaternion V2 V1).

Definition onChange2 : Handler :=
  Cmd.when syncEnabled (copyPosition V1 V2 ;; copyQuaternion V1 V2).

Definition onChange (v : Viewport) : Handler :=
  match v with V1 => onChange1 | V2 => onChange2 end.

(** *** Events

    [OrbitControls] belongs to the library: on a gesture on the canvas of
    viewport [v], and only while [controls.enabled], it moves the camera of
    [v] to a new pose and then dispatches [change] to the listeners.  The
    pose [p] it computes is an input. *)
Definition orbit (v : Viewport) (p : Camera A) : Handler :=
  Cmd.when (enabledOf v)
    (Cmd.prim (MoveCamera v) (fun s => setView v (setCamera p (view v s)) s) ;;
     onChange v).

Inductive Event : Type :=
| Interaction (v : Viewport) (p : Camera A)   (* a gesture on canvas [v] *)
| Tick                                        (* an animation frame *)
| ClickSync                                   (* a click on the sync button *)
| Loaded (v : Viewport) (zoomFactor : A) (g : Gltf A).  (* [loader.load] succeeded *)

Definition handle (e : Event) : Handler :=
  match e with
  | Interaction v p => orbit v p
  | Tick => animate
  | ClickSync => toggleSync
  | Loaded v z g => fun s => ([], onLoad v z g s)
  end.

Fixpoint runEvents (es : list Event) (s : State) : State :=
  match es with
  | [] => s
  | e :: es' => runEvents es' (Cmd.run (handle e) s)
  end.

(** The page once the top-level script has run: both [loadModel] calls
    ([zoomFactor], [ambientLightIntensity] = 0.8, 1.0 and 0.9, 1.6), the
    first [animate()] and [initSyncButton()]; no asset has arrived yet. *)
Definition scriptStart : State :=
  loadModel V2 (lit 9 10) (lit 16 10)
    (loadModel V1 (lit 8 10) (int 1)
       (mkState (newView (int 1) (int 1)) (newView (int 1) (int 1)) [] true 0
                DisplayUnset White)).

Definition pageLoad : State :=
  Cmd.run (animate ;; initSyncButton) scriptStart.

(** Every copy statement of a trace ran with both interaction handlers
    disabled. *)
Definition copiesGuarded (tr : list (Action * State)) : bool :=
  forallb (fun st => if isCopy (fst st)
                     then negb (enabledOf V1 (snd st)) && negb (enabledOf V2 (snd st))
                     else true) tr.

End Page.
End SyncView.

(** ** The single-model browser ([js/main.js]) *)

Module Browser.

(** One entry of [raycaster.intersectObjects]: the name of the object hit.
    The library returns the hits sorted by distance, the nearest first. *)
Record Intersection : Type := mkIntersection { hitName : string }.

(** [name.replace(/_/g, ' ')]: every underscore becomes a space. *)
Definition underscoreToSpace (c : ascii) : ascii :=
  if Ascii.eqb c "_"%char then " "%char else c.

Fixpoint replaceUnderscores (s : string) : string :=
  match s with
  | EmptyString => EmptyString
  | String c s' => String (underscoreToSpace c) (replaceUnderscores s')
  end.

Section Page.
Context {A : Type} `{Number A}.

Inductive SceneNode : Type :=
| AmbientLight
| DirectionalLight (at_ : Vector3 A)
| Model (id : nat) (name : string) (g : Gltf A) (scale : Vector3 A).

Definition isObject (id : nat) (n : SceneNode) : bool :=
  match n with
  | Model id' _ _ _ => Nat.eqb id id'
  | _ => false
  end.

Record Vector2 : Type := vec2 { px : A; py : A }.
Record PointerEvent : Type := mkPointerEvent { clientX : A; clientY : A }.
Record DOMRect : Type := mkRect { left : A; top : A; width : A; height : A }.

(** The module-level variables and the DOM elements [main.js] touches. *)
Record State : Type := mkState {
  children : list SceneNode;        (* scene.children *)
  object : option nat;              (* the global [object], by identity *)
  loads : nat;                      (* objects created so far *)
  camera : Camera A;
  target : Vector3 A;               (* controls.target *)
  ambientintensity : A;             (* the global of that name *)
  ambientLightIntensity : A;        (* ambientLight.intensity *)
  spinner : Display;                (* #loading-spinner *)
  loadingBar : Display;             (* #loading-bar *)
  loadingProgress : option A;       (* #loading-progress width in percent;
                                       None: never set by the script *)
  infoText : string;                (* #info innerText *)
  infoDisplay : Display             (* #info style.display *)
}.

Definition setUI (sp bar : Display) (s : State) : State :=
  mkState (children s) (object s) (loads s) (camera s) (target s)
          (ambientintensity s) (ambientLightIntensity s)
          sp bar (loadingProgress s) (infoText s) (infoDisplay s).

Definition showSpinner (s : State) : State := setUI DisplayBlock (loadingBar s) s.
Definition hideSpinner (s : State) : State := setUI DisplayNone (loadingBar s) s.

(** The per-model [switch]: the base scale factor and the ambient intensity. *)
Definition modelTable : list (string * (A * A)) :=
  [ ("lowerlimb_2_diffuse"%string,             (lit 75 100, lit 8 10));
    ("lowerlimb_2_polarized"%string,           (lit 75 100, lit 12 10));
    ("lowerlimb_diffuse"%string,               (int 1,      lit 6 10));
    ("lowerlimb_polarized"%string,             (lit 75 100, int 1));
    ("lowerlimb_polarized_Annotations"%string, (lit 8 10,   int 1));
    ("lowerlimb_diffuse_Annotations"%string,   (lit 8 10,   lit 5 10));
    ("Upperlimb_diffuse"%string,               (int 1,      lit 5 10));
    ("Upperlimb_diffuse_Annotations"%string,   (int 1,      lit 5 10));
    ("Upperlimb_diffuse_quiz"%string,          (int 1,      lit 5 10));
    ("Upperlimb_polarized"%string,             (int 1,      lit 12 10));
    ("Upperlimb_polarized_Annotations"%string, (int 1,      lit 12 10)) ].

Definition lookupModel (modelName : string) : option (A * A) :=
  option_map snd (find (fun e => String.eqb modelName (fst e)) modelTable).

(** [let scaleFactor = 1] and the [switch]: for a model that has no case the
    factor stays 1 and [ambientintensity] keeps its previous value. *)
Definition baseScaleFactor (modelName : string) : A :=
  match lookupModel modelName with
  | Some e => fst e
  | None => int 1
  end.

Definition modelIntensity (modelName : string) (previous : A) : A :=
  match lookupModel modelName with
  | Some e => snd e
  | None => previous
  end.

Definition scaleFactor (modelName : string) (g : Gltf A) : A :=
  applyScaleToFit (baseScaleFactor modelName) g.

(** [const cameraDistance = objectRadius * 2] *)
Definition cameraDistance (g : Gltf A) : A := nmul (objectRadius g) (int 2).

(** *** [loadModel(modelName)]: the synchronous part

    [camera.lookAt(0, 0, 0)] from (0,0,5) with the default up vector yields
    the unrotated orientation. *)
Definition loadModel (s : State) : State :=
  let s1 := showSpinner s in
  mkState (children s1) (object s1) (loads s1)
          (mkCamera (vec3 (int 0) (int 0) (int 5)) identityQuaternion)
          (target s1) (ambientintensity s1) (ambientLightIntensity s1)
          (spinner s1) DisplayBlock (loadingProgress s1)
          (infoText s1) (infoDisplay s1).

(** *** The three callbacks passed to [loader.load] *)

Definition onLoad (modelName : string) (g : Gltf A) (s : State) : State :=
  let id := loads s in
  let intensity := modelIntensity modelName (ambientintensity s) in
  let k := scaleFactor modelName g in
  hideSpinner
    (mkState (children s ++ [Model id modelName g (vec3 k k k)])
             (Some id) (S id)
             (mkCamera (cameraPlacement g (cameraDistance g))
                       (quaternion (camera s)))
             (objectPosition g)
             intensity intensity
             (spinner s) DisplayNone (loadingProgress s)
             (infoText s) (infoDisplay s)).

(** [progress = (xhr.loaded / xhr.total) * 100] *)
Definition progressPercent (loaded total : A) : A :=
  nmul (ndiv loaded total) (int 100).

(** [style.width = progress + '%']: the DOM keeps the assignment only if the
    text is a CSS width, a finite percentage that is not negative, and
    otherwise leaves the old width in place.  [loaded] and [total] are byte
    counts, so the quotient fails to be finite exactly when [total] is 0
    (no length was announced): the text is then [Infinity%] or [NaN%]. *)
Definition widthAccepted (loaded total : A) : bool :=
  negb (neqb total (int 0)) && nleb (int 0) (progressPercent loaded total).

Definition onProgress (loaded total : A) (s : State) : State :=
  mkState (children s) (object s) (loads s) (camera s) (target s)
          (ambientintensity s) (ambientLightIntensity s)
          (spinner s) (loadingBar s)
          (if widthAccepted loaded total
           then Some (progressPercent loaded total)
           else loadingProgress s)
          (infoText s) (infoDisplay s).

(** [console.error(error); hideSpinner();] *)
Definition onError (s : State) : State := hideSpinner s.

(** The [change] listener of the model selector. *)
Definition onModelSelect (s : State) : State :=
  let kept :=
    match object s with
    | Some id => filter (fun n => negb (isObject id n)) (children s)
    | None => children s
    end in
  loadModel
    (mkState kept (object s) (loads s) (camera s) (target s)
             (ambientintensity s) (ambientLightIntensity s)
             (spinner s) (loadingBar s) (loadingProgress s)
             (infoText s) (infoDisplay s)).

(** *** Pointer selection *)

(** The pointer in normalised device coordinates. *)
Definition pointerOf (e : PointerEvent) (rect : DOMRect) : Vector2 :=
  vec2 (nsub (nmul (ndiv (nsub (clientX e) (left rect)) (width rect)) (int 2)) (int 1))
       (nadd (nmul (nopp (ndiv (nsub (clientY e) (top rect)) (height rect))) (int 2))
             (int 1)).

Definition setInfo (text : string) (d : Display) (s : State) : State :=
  mkState (children s) (object s) (loads s) (camera s) (target s)
          (ambientintensity s) (ambientLightIntensity s)
          (spinner s) (loadingBar s) (loadingProgress s) text d.

(** [raycaster.setFromCamera(pointer, camera)] followed by
    [raycaster.intersectObjects(scene.children, true)]: the library's ray
    cast, an input of the model. *)
Variable intersectObjects :
  Vector2 -> Camera A -> list SceneNode -> list Intersection.

Definition onPointerDown (e : PointerEvent) (rect : DOMRect) (s : State) : State :=
  let pointer := pointerOf e rect in
  let intersects := intersectObjects pointer (camera s) (children s) in
  match intersects with
  | hit :: _ =>
      if negb (String.eqb (hitName hit) "Mesh")
      then setInfo (replaceUnderscores (hitName hit)) DisplayBlock s
      else setInfo (infoText s) DisplayNone s
  | [] => setInfo (infoText s) DisplayNone s
  end.

(** *** Events *)

Inductive Event : Type :=
| SelectModel
| Progress (loaded total : A)
| LoadSucceeded (modelName : string) (g : Gltf A)
| LoadFailed
| PointerDown (e : PointerEvent) (rect : DOMRect).

Definition handle (e : Event) (s : State) : State :=
  match e with
  | SelectModel => onModelSelect s
  | Progress l t => onProgress l t s
  | LoadSucceeded n g => onLoad n g s
  | LoadFailed => onError s
  | PointerDown e rect => onPointerDown e rect s
  end.

Definition runEvents (es : list Event) (s : State) : State :=
  fold_left (fun s e => handle e s) es s.

(** The page once the top-level script has run: the three lights are in the
    scene, the first [loadModel] has been issued, nothing has arrived. *)
Definition pageLoad : State :=
  loadModel
    (mkState [ AmbientLight;
               DirectionalLight (vec3 (int 0) (int 1) (int 1));
               DirectionalLight (vec3 (int 0) (int 1) (int (-1))) ]
             None 0
             (mkCamera (vec3 (int 0) (int 0) (int 0)) identityQuaternion)
             (vec3 (int 0) (int 0) (int 0))
             (lit 5 10) (lit 5 10)
             DisplayUnset DisplayUnset None EmptyString DisplayUnset).

End Page.
End Browser.

(** ** The quiz scripts *)

Module Quiz.
Local Open Scope nat_scope.
Local Open Scope string_scope.

Record Question : Type := mkQuestion {
  question : string;
  options : list string;
  answer : string
}.

(** [quizData] of [upperlimb_quiz.js]. *)
Definition upperlimbQuizData : list Question :=
  [ mkQuestion "Name structure number 1"
      [ "M. subscapularis";
        "M. supraspinatus";
        "M. teres minor ";
        "M. infraspinatus";
        "M. deltoideus";
        "M. teres major";
        "M. latissimus dorsi" ]
      "M. teres major";
    mkQuestion "Which insertion of structure 2 is correct?"
      [ "Tuberculum minus";
        "tuberculum majus";
        "tuberculum infraglenoidale";
        "crista tuberculi minoris";
        "crista tuberculi majoris" ]
      "crista tuberculi minoris";
    mkQuestion "Which nerve innervates structure 3?"
      [ "n. dorsalis scapulae";
        "n. subscapularis";
        "n. suprascapularis";
        "n. infrascapularis";
        "n. thoracicus longus";
        "n. pectoralis lateralis" ]
      "n. suprascapularis";
    mkQuestion "Which origin of structure 4 is incorrect?"
      [ "Transverse processes of the thoracic vertebrae";
        "Spinous processes of the thoracic vertebrae";
        "Nuchal ligament";
        "Superior nuchal line";
        "External occipital protuberance";
        "Supraspinous ligament" ]
      "Transverse processes of the thoracic vertebrae";
    mkQuestion "Which blood vessel provides structure number 5?"
      [ "a. basilica";
        "a. brachialis";
        "a. mediana";
        "a. profunda brachii";
        "a. axillary";
        "a. radialis" ]
      "a. brachialis";
    mkQuestion "Name structure 6"
      [ "M. serratus anterior";
        "M. pectoralis major";
        "M. pectoralis minor";
        "M. intercostalis externi";
        "M. transversus thoracis";
        "M. coracobrachialis" ]
      "M. pectoralis minor";
    mkQuestion "What is the correct origin of structure 7?"
      [ "epicondyle medialis humeri and coronoid process ulnae";
        "epicondyle medialis humeri and olecranon";
        "epicondyle lateralis humeri and coronoid process ulnae";
        "epicondyle lateralis humeri and olecranon";
        "epicondyle lateralis humeri and posterior border of ulna";
        "epicondyle lateralis humeri and margo posterior humeri" ]
      "epicondyle lateralis humeri and posterior border of ulna";
    mkQuestion "What are the functions of structure 8?"
      [ "retroflexion of the shoulder joint";
        "anteflexion of the shoulder joint";
        "extension of the elbow";
        "flexion of the elbow";
        "retroflexion of the shoulder joint and extension of the elbow";
        "anteflexion of the shoulder joint and flexion of the elbow" ]
      "extension of the elbow";
    mkQuestion "What is the insertion of structure 9"
      [ "styloid process of the ulnae";
        "styloid process of the radius";
        "caput ulnae";
        "scaphoid bone";
        "metacarpal 1";
        "os trapezium" ]
      "styloid process of the radius";
    mkQuestion "Which nerve innervates structure 10?"
      [ "n radialis ramus profundus";
        "n radialis ramus superfiscialis";
        "n ulnaris";
        "n medianus";
        "n musculocutaneous";
        "n antebrachialis" ]
      "n medianus" ].

(** [quizData] of the lower-limb quiz. *)
Definition lowerlimbQuizData : list Question :=
  [ mkQuestion "Name structure number 1"
      [ "m quadratus lumborum";
        "m iliacus";
        "m psoas major";
        "m psoas minor";
        "m multifidus";
        "m transversus abdominis" ]
      "m iliacus";
    mkQuestion "Name structure number 2"
      [ "m vastus lateralis";
        "m vastus intermedius";
        "m tractus iliotibialis";
        "m tensor facia latae";
        "m vastus medialis";
        "m rectus femoris" ]
      "m tensor facia latae";
    mkQuestion "Name structure number 3"
      [ "n peroneus communis";
        "n obturatorius";
        "n ischiadicus";
        "n femoralis";
        "n tibialis";
        "n fibularis" ]
      "n femoralis";
    mkQuestion "Which of the following statements is correct for structure 4?"
      [ "this nerve innervates the m adductor longus";
        "this artery supplies blood to the tensor fascia latae";
        "this artery supplies blood to the vastus lateralis";
        "this vein receives blood from the v saphena magna";
        "this vein goes to the external iliac crest";
        "this artery is located in the lacuna vasorum" ]
      "this artery is located in the lacuna vasorum";
    mkQuestion "Which statement is false for structure 5?"
      [ "the origin of this muscle is the anterior superior iliac spine";
        "the insertion of this muscle is the facies medialis of the tibia, medial to the tuberosity";
        "the innervation of this muscle is the n femoralis";
        "the blood supply of this muscle is the a circumflexa femoris medialis";
        "this muscle does, among other things, flexion and abduction of the thigh";
        "this muscle is part of the pes anserinus" ]
      "the blood supply of this muscle is the a circumflexa femoris medialis";
    mkQuestion "Name structure number 6"
      [ "m adductor longus";
        "m adductor brevis";
        "m adductor magnus";
        "m adductor minimus";
        "m pectineus";
        "m gracilis" ]
      "m adductor longus";
    mkQuestion "Name structure number 7"
      [ "a tibialis anterior";
        "a tibialis posterior";
        "n peroneus superfiscialis";
        "n peroneus profundus";
        "v saphenous parva";
        "v saphena magna" ]
      "v saphena magna";
    mkQuestion "What structure is not in this compartment (number 8)?"
      [ "a tibialis posterior";
        "a peronea";
        "n tibialis";
        "m plantaris";
        "m tibialis posterior";
        "m flexor hallucis longus" ]
      "m plantaris";
    mkQuestion "What is the origin of structure 9?"
      [ "L4-S3";
        "L5-S2";
        "L1-L4";
        "T12-L5";
        "S1-S3";
        "S1-Co2" ]
      "L4-S3";
    mkQuestion "What is the insertion of structure 10?"
      [ "fossa intertrochanterica femoris";
        "linea intertrochanterica femoris";
        "greater trochanter femoris";
        "lesser trochanter femoris";
        "linea aspera labium mediale";
        "linea aspera labium laterale" ]
      "greater trochanter femoris" ].

(** What [optionsElement] holds: the answer buttons of the current question,
    or the result page with its retake button. *)
Inductive Options : Type :=
| Buttons (texts : list string)
| Result (shownScore shownTotal : nat) (answers : list string).

Record State : Type := mkState {
  currentQuestion : nat;
  score : nat;
  questionText : string;       (* questionElement *)
  optionsElement : Options
}.

Section Quiz.
Variable quizData : list Question.

(** A handler returns [None] when it throws: reading [.question] or
    [.answer] of [quizData[currentQuestion]] past the end is a TypeError. *)
Definition showQuestion (s : State) : option State :=
  match nth_error quizData (currentQuestion s) with
  | Some q => Some (mkState (currentQuestion s) (score s) (question q)
                            (Buttons (options q)))
  | None => None
  end.

Definition showResult (s : State) : State :=
  mkState (currentQuestion s) (score s) ""
          (Result (score s) (List.length quizData) (map answer quizData)).

(** [selectAnswer(e)], where [text] is [e.target.innerText]. *)
Definition selectAnswer (text : string) (s : State) : option State :=
  match nth_error quizData (currentQuestion s) with
  | None => None
  | Some q =>
      let score' := if String.eqb text (answer q) then S (score s) else score s in
      let s' := mkState (S (currentQuestion s)) score' (questionText s)
                        (optionsElement s) in
      if Nat.ltb (currentQuestion s') (List.length quizData)
      then showQuestion s'
      else Some (showResult s')
  end.

Definition retakeQuiz (s : State) : option State :=
  showQuestion (mkState 0 0 (questionText s) (optionsElement s)).

(** The page once the script has run: [showQuestion()] on the fresh
    counters. *)
Definition start : option State := showQuestion (mkState 0 0 "" (Buttons [])).

(** The clicks the page offers: on the [i]-th answer button while a question
    is shown, on the retake button while the result is shown.  A click on a
    button that is not on the page cannot happen and is ignored. *)
Inductive Event : Type :=
| ClickOption (i : nat)
| ClickRetake.

Definition handle (e : Event) (s : State) : option State :=
  match e, optionsElement s with
  | ClickOption i, Buttons texts =>
      match nth_error texts i with
      | Some text => selectAnswer text s
      | None => Some s
      end
  | ClickRetake, Result _ _ _ => retakeQuiz s
  | _, _ => Some s
  end.

Fixpoint runEvents (es : list Event) (s : State) : option State :=
  match es with
  | [] => Some s
  | e :: es' =>
      match handle e s with
      | Some s' => runEvents es' s'
      | None => None
      end
  end.

(** Answering with the texts [texts], one per question, in order. *)
Fixpoint answerAll (texts : list string) (s : State) : option State :=
  match texts with
  | [] => Some s
  | t :: texts' =>
      match selectAnswer t s with
      | Some s' => answerAll texts' s'
      | None => None
      end
  end.

(** The number of questions answered correctly by [texts]. *)
Fixpoint correctAnswers (qs : list Question) (texts : list string) : nat :=
  match qs, texts with
  | q :: qs', t :: texts' =>
      (if String.eqb t (answer q) then 1 else 0) + correctAnswers qs' texts'
  | _, _ => 0
  end.

Definition invariant (s : State) : Prop :=
  score s <= currentQuestion s /\ currentQuestion s <= List.length quizData.

End Quiz.
End Quiz.

(** * Properties of the two-panel synchronised display *)

Module SyncFacts.
Import SyncView.

(** Events that act on viewport [v] only: gestures on its canvas, and
    animation frames. *)
Definition actsOn {A : Type} (v : Viewport) (e : Event (A := A)) : bool :=
  match e with
  | Interaction v' _ => match v, v' with V1, V1 | V2, V2 => true | _, _ => false end
  | Tick => true
  | _ => false
  end.

Section Facts.
Context {A : Type} `{Number A}.

#[local] Abbreviation State := (State (A := A)).
#[local] Abbreviation Event := (Event (A := A)).

Ltac unfold_handlers :=
  unfold Cmd.run, Cmd.trace, handle, orbit, onChange, onChange1, onChange2,
    animate, toggleSync, paintButton, requestAnimationFrame, render,
    copyPosition, copyQuaternion, setEnabled, Cmd.seq, Cmd.when, Cmd.prim,
    Cmd.skip in *.

Lemma camera_eta (c : Camera A) : mkCamera (position c) (quaternion c) = c.
Proof. destruct c; reflexivity. Qed.

(** Both interaction handlers are enabled between callbacks. *)
Definition controlsOn (s : State) : Prop :=
  enabledOf V1 s = true /\ enabledOf V2 s = true.

Lemma animate_sync_cameras (s : State) :
  syncEnabled s = true ->
  cameraOf V2 (Cmd.run animate s) = cameraOf V1 s /\
  cameraOf V1 (Cmd.run animate s) = cameraOf V1 s.
Proof.
  intros Hs. unfold_handlers. cbn. rewrite Hs. cbn.
  split; [apply camera_eta | reflexivity].
Qed.

Lemma animate_nosync (s : State) :
  syncEnabled s = false -> Cmd.run animate s = s.
Proof.
  intros Hs. unfold_handlers. cbn. rewrite Hs. reflexivity.
Qed.

Lemma animate_flags (s : State) :
  syncEnabled (Cmd.run animate s) = syncEnabled s /\
  (controlsOn s -> controlsOn (Cmd.run animate s)).
Proof.
  unfold controlsOn. unfold_handlers. cbn.
  destruct (syncEnabled s) eqn:Hs; cbn; rewrite ?Hs; auto.
Qed.

Lemma orbit_sync (v : Viewport) (p : Camera A) (s : State) :
  syncEnabled s = true -> enabledOf v s = true ->
  cameraOf V1 (Cmd.run (orbit v p) s) = p /\
  cameraOf V2 (Cmd.run (orbit v p) s) = p.
Proof.
  intros Hs He. unfold_handlers. rewrite He.
  destruct v; cbn in *; rewrite Hs; cbn; split;
    try reflexivity; apply camera_eta.
Qed.

Lemma orbit_nosync (v : Viewport) (p : Camera A) (s : State) :
  syncEnabled s = false ->
  view (other v) (Cmd.run (orbit v p) s) = view (other v) s.
Proof.
  intros Hs. unfold_handlers.
  destruct (enabledOf v s); [| reflexivity].
  destruct v; cbn in *; rewrite Hs; reflexivity.
Qed.

Lemma orbit_flags (v : Viewport) (p : Camera A) (s : State) :
  syncEnabled (Cmd.run (orbit v p) s) = syncEnabled s /\
  (controlsOn s -> controlsOn (Cmd.run (orbit v p) s)).
Proof.
  unfold controlsOn. unfold_handlers.
  destruct (enabledOf v s) eqn:He; [| auto].
  destruct v; cbn in *; destruct (syncEnabled s) eqn:Hs; cbn; rewrite ?Hs; auto.
Qed.

Lemma toggle_flags (s : State) :
  controlsOn s -> controlsOn (Cmd.run toggleSync s).
Proof. unfold controlsOn. unfold_handlers. cbn. auto. Qed.

Lemma onLoad_flags (v : Viewport) (z : A) (g : Gltf A) (s : State) :
  syncEnabled (onLoad v z g s) = syncEnabled s /\
  (controlsOn s -> controlsOn (onLoad v z g s)).
Proof.
  unfold controlsOn, onLoad, hideSpinner, setSpinner, enabledOf.
  destruct v; cbn;
    match goal with |- context [if ?b then _ else _] => destruct b end;
    cbn; auto.
Qed.

Lemma handle_controlsOn (e : Event) (s : State) :
  controlsOn s -> controlsOn (Cmd.run (handle e) s).
Proof.
  destruct e as [v p | | | v z g]; cbn [handle].
  - apply orbit_flags.
  - apply animate_flags.
  - apply toggle_flags.
  - apply (onLoad_flags v z g s).
Qed.

Lemma runEvents_controlsOn (es : list Event) (s : State) :
  controlsOn s -> controlsOn (runEvents es s).
Proof.
  revert s. induction es as [| e es IH]; intros s Hs; cbn; [assumption |].
  apply IH. now apply handle_controlsOn.
Qed.

Lemma runEvents_app (es1 es2 : list Event) (s : State) :
  runEvents (es1 ++ es2) s = runEvents es2 (runEvents es1 s).
Proof.
  revert s. induction es1 as [| e es IH]; intros s; cbn; [reflexivity | apply IH].
Qed.

(** With sync off, events on viewport [v] leave the other view alone and
    keep sync off. *)
Lemma handle_nosync_frame (v : Viewport) (e : Event) (s : State) :
  syncEnabled s = false -> actsOn v e = true ->
  syncEnabled (Cmd.run (handle e) s) = false /\
  view (other v) (Cmd.run (handle e) s) = view (other v) s.
Proof.
  intros Hs Ha. destruct e as [v' p | | | v' z g]; cbn in Ha; try discriminate.
  - assert (v' = v) by (destruct v, v'; congruence). subst v'. cbn [handle].
    split; [rewrite (proj1 (orbit_flags v p s)); assumption
           | now apply orbit_nosync].
  - cbn [handle]. rewrite (animate_nosync s Hs). auto.
Qed.

Lemma runEvents_nosync_frame (v : Viewport) (es : list Event) (s : State) :
  syncEnabled s = false -> forallb (actsOn v) es = true ->
  view (other v) (runEvents es s) = view (other v) s.
Proof.
  revert s. induction es as [| e es IH]; intros s Hs Ha; cbn; [reflexivity |].
  cbn in Ha. apply andb_prop in Ha. destruct Ha as [Ha Hes].
  destruct (handle_nosync_frame v e s Hs Ha) as [Hs' Hv].
  rewrite (IH _ Hs' Hes). exact Hv.
Qed.

(** Only a completed load touches the loader's state. *)
Definition isLoaded (e : Event) : bool :=
  match e with Loaded _ _ _ => true | _ => false end.

Lemma handle_keeps_loader (e : Event) (s : State) :
  isLoaded e = false ->
  modelsLoaded (Cmd.run (handle e) s) = modelsLoaded s /\
  spinner (Cmd.run (handle e) s) = spinner s.
Proof.
  intros He. destruct e as [v p | | | v z g]; try discriminate; unfold_handlers.
  - destruct (enabledOf v s); [| auto].
    destruct v; cbn; destruct (syncEnabled s); cbn; auto.
  - cbn. destruct (syncEnabled s); cbn; auto.
  - cbn. auto.
Qed.

(** The tick keeps every copy inside the disabled window, whatever the
    state, and leaves both handlers enabled when sync is on. *)
Lemma animate_copies_guarded (s : State) :
  copiesGuarded (Cmd.trace animate s) = true /\
  (syncEnabled s = true -> controlsOn (Cmd.run animate s)).
Proof.
  unfold controlsOn. unfold_handlers. cbn.
  destruct (syncEnabled s) eqn:Hs; cbn; split; auto; discriminate.
Qed.

(** The [change] listeners copy while both handlers are enabled. *)
Lemma listener_copies_unguarded (v : Viewport) (p : Camera A) (s : State) :
  syncEnabled s = true -> controlsOn s ->
  copiesGuarded (Cmd.trace (orbit v p) s) = false.
Proof.
  intros Hs [H1 H2]. unfold_handlers.
  destruct v; [rewrite H1 | rewrite H2]; cbn in *; rewrite Hs; cbn;
    unfold enabledOf in *; cbn in *; rewrite H1; reflexivity.
Qed.

(** C1. While sync is on, a gesture on either canvas leaves both cameras at
    the pose the gesture produced: the other camera mirrors the changed one,
    in both directions and after every history of gestures, frames, loads
    and button clicks that ends with sync on. *)
Theorem sync_mirrors_interaction
  (es : list Event) (s : State) (v : Viewport) (p : Camera A) :
  controlsOn s ->
  syncEnabled (runEvents es s) = true ->
  cameraOf v (runEvents (es ++ [Interaction v p]) s) = p /\
  cameraOf (other v) (runEvents (es ++ [Interaction v p]) s) = p /\
  position (cameraOf (other v) (runEvents (es ++ [Interaction v p]) s)) =
    position (cameraOf v (runEvents (es ++ [Interaction v p]) s)) /\
  quaternion (cameraOf (other v) (runEvents (es ++ [Interaction v p]) s)) =
    quaternion (cameraOf v (runEvents (es ++ [Interaction v p]) s)).
Proof.
  intros Hon Hsync. rewrite runEvents_app. cbn [runEvents handle].
  pose proof (runEvents_controlsOn es Hon) as [H1 H2].
  assert (He : enabledOf v (runEvents es s) = true) by (destruct v; assumption).
  destruct (orbit_sync v p (runEvents es s) Hsync He) as [E1 E2].
  assert (Ev : cameraOf v (Cmd.run (orbit v p) (runEvents es s)) = p)
    by (destruct v; assumption).
  assert (Eo : cameraOf (other v) (Cmd.run (orbit v p) (runEvents es s)) = p)
    by (destruct v; assumption).
  rewrite Ev, Eo. repeat split; reflexivity.
Qed.

(** C5. On an animation tick with sync on, camera 2 takes the position and
    the orientation of camera 1 and camera 1 keeps its own, whatever
    happened before the tick (in particular when the last gesture was on
    canvas 2). *)
Theorem tick_overwrites_camera2 (es : list Event) (s0 : State) :
  syncEnabled (runEvents es s0) = true ->
  position (cameraOf V2 (runEvents (es ++ [Tick]) s0)) =
    position (cameraOf V1 (runEvents es s0)) /\
  quaternion (cameraOf V2 (runEvents (es ++ [Tick]) s0)) =
    quaternion (cameraOf V1 (runEvents es s0)) /\
  cameraOf V1 (runEvents (es ++ [Tick]) s0) = cameraOf V1 (runEvents es s0).
Proof.
  intros Hsync. rewrite runEvents_app. cbn [runEvents handle].
  destruct (animate_sync_cameras (runEvents es s0) Hsync) as [E2 E1].
  rewrite E2, E1. repeat split; reflexivity.
Qed.

(** C6. With sync off, gestures on one canvas and animation ticks never
    change the camera of the other viewport; and from a state with sync on,
    clicking the sync button and then rotating one viewport leaves the other
    camera's position and quaternion at their earlier values. *)
Theorem nosync_isolates_viewports (v : Viewport) (es : list Event) (s : State) :
  forallb (actsOn v) es = true ->
  (syncEnabled s = false ->
   position (cameraOf (other v) (runEvents es s)) = position (cameraOf (other v) s) /\
   quaternion (cameraOf (other v) (runEvents es s)) = quaternion (cameraOf (other v) s)) /\
  (syncEnabled s = true ->
   position (cameraOf (other v) (runEvents (ClickSync :: es) s)) =
     position (cameraOf (other v) s) /\
   quaternion (cameraOf (other v) (runEvents (ClickSync :: es) s)) =
     quaternion (cameraOf (other v) s)).
Proof.
  intros Hes. split; intros Hs.
  - unfold cameraOf. rewrite (runEvents_nosync_frame v es s Hs Hes). auto.
  - cbn [runEvents handle]. unfold cameraOf.
    rewrite (runEvents_nosync_frame v es (Cmd.run toggleSync s)).
    + destruct v; auto.
    + unfold_handlers. cbn. now rewrite Hs.
    + exact Hes.
Qed.

(** C9. A click on the sync button negates [syncEnabled] and paints the
    button green (sync on) or red (sync off); both views (scene, camera
    position and quaternion, controls), the list of loaded objects, the
    count of loaded models and the spinner are as before. *)
Theorem toggleSync_frame (s : State) :
  syncEnabled (Cmd.run toggleSync s) = negb (syncEnabled s) /\
  syncButton (Cmd.run toggleSync s) = (if syncEnabled s then Red else Green) /\
  view1 (Cmd.run toggleSync s) = view1 s /\
  view2 (Cmd.run toggleSync s) = view2 s /\
  objects (Cmd.run toggleSync s) = objects s /\
  modelsLoaded (Cmd.run toggleSync s) = modelsLoaded s /\
  spinner (Cmd.run toggleSync s) = spinner s.
Proof.
  unfold_handlers. cbn. destruct (syncEnabled s); repeat split; reflexivity.
Qed.

End Facts.

(** A pose to feed the handlers with at the exact instance. *)
Definition somePose : Camera Q :=
  mkCamera (vec3 1 2 3) (quat 0 1 0 0).

Definition otherPose : Camera Q :=
  mkCamera (vec3 (-4) 0 (1 # 2)) (quat 0 0 1 0).

Lemma pageLoad_controlsOn : controlsOn (pageLoad (A := Q)).
Proof. split; reflexivity. Qed.

Lemma sync_mirrors_interaction_witness :
  cameraOf V2
    (runEvents ([Interaction V1 somePose; Tick; Interaction V2 otherPose] ++
                [Interaction V2 somePose]) pageLoad) = somePose /\
  cameraOf V1
    (runEvents ([Interaction V1 somePose; Tick; Interaction V2 otherPose] ++
                [Interaction V2 somePose]) pageLoad) = somePose.
Proof.
  pose proof (sync_mirrors_interaction
                [Interaction V1 somePose; Tick; Interaction V2 otherPose]
                V2 somePose pageLoad_controlsOn eq_refl) as [H1 [H2 _]].
  split; [exact H1 | exact H2].
Defined.

Lemma tick_overwrites_camera2_witness :
  position (cameraOf V2 (runEvents ([Loaded V2 (9 # 10) (mkGltf (vec3 1 2 4) (vec3 0 1 0) 3)] ++ [Tick]) pageLoad)) =
  position (cameraOf V1 (runEvents [Loaded V2 (9 # 10) (mkGltf (vec3 1 2 4) (vec3 0 1 0) 3)] pageLoad)).
Proof.
  exact (proj1 (tick_overwrites_camera2
                  [Loaded V2 (9 # 10) (mkGltf (vec3 1 2 4) (vec3 0 1 0) 3)]
                  pageLoad eq_refl)).
Defined.

Lemma nosync_isolates_viewports_witness :
  quaternion (cameraOf V2 (runEvents [ClickSync; Interaction V1 somePose; Tick] pageLoad)) =
  quaternion (cameraOf V2 (pageLoad (A := Q))).
Proof.
  exact (proj2 (proj2 (nosync_isolates_viewports V1
                         [Interaction V1 somePose; Tick] pageLoad eq_refl)
                  eq_refl)).
Defined.

(** C4. Evaluated on the page as loaded (sync on, both handlers enabled):
    the [change] listeners of both controls run their copy statements with
    the handlers enabled, while the tick runs the same copy between the
    disabling and the re-enabling. *)
Theorem change_listener_copies_without_disabling :
  syncEnabled (pageLoad (A := Q)) = true /\
  enabledOf V1 (pageLoad (A := Q)) = true /\
  enabledOf V2 (pageLoad (A := Q)) = true /\
  map fst (Cmd.trace (handle (Interaction V1 somePose)) pageLoad) =
    [MoveCamera V1; CopyPosition V2 V1; CopyQuaternion V2 V1] /\
  copiesGuarded (Cmd.trace (handle (Interaction V1 somePose)) pageLoad) = false /\
  copiesGuarded (Cmd.trace (handle (Interaction V2 somePose)) pageLoad) = false /\
  map fst (Cmd.trace (handle Tick) (pageLoad (A := Q))) =
    [RequestAnimationFrame; SetEnabled V1 false; SetEnabled V2 false;
     CopyPosition V2 V1; CopyQuaternion V2 V1;
     SetEnabled V1 true; SetEnabled V2 true; Render V1; Render V2] /\
  copiesGuarded (Cmd.trace (handle Tick) (pageLoad (A := Q))) = true.
Proof. repeat split; vm_compute; reflexivity. Qed.

End SyncFacts.

(** * Properties of the loaders: scaling, camera framing, progress surface *)

From Stdlib Require Import Lqa.

Module LoaderFacts.

(** ** Geometry over the exact numbers *)

Definition veq (a b : Vector3 Q) : Prop :=
  vx a == vx b /\ vy a == vy b /\ vz a == vz b.

(** [p] lies on the ray that leaves [c] in direction +Z, [d] away from it. *)
Definition alongPlusZ (c p : Vector3 Q) (d : Q) : Prop :=
  0 < d /\ veq (vsub p c) (vec3 0 0 d) /\ lengthSq (vsub p c) == d * d.

(** The point [t] lies ahead of the camera on its viewing axis. *)
Definition lookingAt (cam : Camera Q) (t : Vector3 Q) : Prop :=
  exists k : Q, 0 < k /\
    veq (vadd (position cam) (vscale k (forward (quaternion cam)))) t.

(** The camera faces straight down the -Z axis, as it does unrotated. *)
Definition facesMinusZ (q : Quaternion Q) : Prop :=
  vx (forward q) == 0 /\ vy (forward q) == 0 /\ vz (forward q) < 0.

Ltac exact_numbers :=
  cbv [veq vadd vsub vscale lengthSq forward identityQuaternion
       cameraPlacement SyncView.cameraDistance Browser.cameraDistance
       SyncView.scaleFactor Browser.scaleFactor applyScaleToFit scaleToFit
       desiredSize int lit nadd nsub nmul ndiv nopp Number_Q
       vx vy vz qx qy qz qw position quaternion] in *.

Lemma syncview_onLoad_view (v : SyncView.Viewport) (z : Q) (g : Gltf Q)
  (s : SyncView.State) :
  SyncView.camera (SyncView.view v (SyncView.onLoad v z g s)) =
    mkCamera (cameraPlacement g (SyncView.cameraDistance g z))
             (quaternion (SyncView.cameraOf v s)) /\
  SyncView.target (SyncView.controls (SyncView.view v (SyncView.onLoad v z g s))) =
    objectPosition g.
Proof.
  unfold SyncView.onLoad, SyncView.hideSpinner, SyncView.setSpinner.
  destruct v; cbn;
    match goal with |- context [if ?b then _ else _] => destruct b end;
    cbn; split; reflexivity.
Qed.

Lemma placement_alongPlusZ (g : Gltf Q) (d : Q) :
  0 < d -> alongPlusZ (objectPosition g) (cameraPlacement g d) d.
Proof.
  intros Hd. unfold alongPlusZ. split; [exact Hd |].
  destruct g as [sz [cx cy cz] r]. exact_numbers. cbn.
  repeat split; ring.
Qed.

Lemma placement_lookingAt (g : Gltf Q) (d : Q) :
  0 < d ->
  lookingAt (mkCamera (cameraPlacement g d) identityQuaternion) (objectPosition g).
Proof.
  intros Hd. exists d. split; [exact Hd |].
  destruct g as [sz [cx cy cz] r]. exact_numbers. cbn.
  repeat split; ring.
Qed.

(** A camera put [d] along +Z from the centre has the centre ahead on its
    viewing axis exactly when it faces down -Z. *)
Lemma placement_lookingAt_iff (g : Gltf Q) (d : Q) (q : Quaternion Q) :
  0 < d ->
  (lookingAt (mkCamera (cameraPlacement g d) q) (objectPosition g) <-> facesMinusZ q).
Proof.
  intros Hd. unfold lookingAt, facesMinusZ. cbn [position quaternion].
  destruct (forward q) as [fx fy fz]. destruct g as [sz [cx cy cz] r].
  cbv [veq vadd vscale cameraPlacement objectPosition int lit nadd nmul
       Number_Q vx vy vz].
  split.
  - intros [k [Hk [Ex [Ey Ez]]]].
    assert (Kx : k * fx == 0) by lra. assert (Ky : k * fy == 0) by lra.
    assert (Kz : k * fz == - d) by lra.
    assert (Hk0 : ~ k == 0) by lra.
    split; [| split].
    + destruct (Qmult_integral _ _ Kx) as [E | E]; [contradiction | exact E].
    + destruct (Qmult_integral _ _ Ky) as [E | E]; [contradiction | exact E].
    + destruct (Qlt_le_dec fz 0) as [Hneg | Hpos]; [exact Hneg |].
      pose proof (Qmult_le_0_compat k fz (Qlt_le_weak _ _ Hk) Hpos). lra.
  - intros [Ex [Ey Ez]]. exists (d / - fz).
    assert (Hf : 0 < - fz) by lra.
    split; [apply Qlt_shift_div_l; [exact Hf | lra] |].
    rewrite Ex, Ey. repeat split; try ring.
    field. lra.
Qed.

Lemma identity_facesMinusZ : facesMinusZ identityQuaternion.
Proof. unfold facesMinusZ. vm_compute. repeat split. Qed.

Lemma positive_distance (r k z : Q) : 0 < r -> 0 < k -> 0 < z -> 0 < r * k * z.
Proof.
  intros Hr Hk Hz. apply Qmult_lt_0_compat; [apply Qmult_lt_0_compat |]; assumption.
Qed.

(** ** Camera framing *)

(** C2, amended.  When a load succeeds, the camera of that view is put on
    the +Z ray from the centre of the model's bounding box, at the distance
    [objectRadius * 2 * zoomFactor] from it (two-panel view) or
    [objectRadius * 2] (single-model browser, which has no zoom factor), and
    the orbit target becomes that centre.  The load does not turn the
    camera: its quaternion stays, so it looks at the centre exactly when it
    already faced down -Z, as it does in the unrotated orientation it is
    created with and that [camera.lookAt(0, 0, 0)] gives it when the
    single-model browser starts a load.  Centre and radius are those [Box3]
    measured on the loaded scene. *)
Theorem camera_framing_after_load
  (v : SyncView.Viewport) (zoomFactor : Q) (modelName : string) (g : Gltf Q)
  (s : SyncView.State) (b : Browser.State) :
  0 < objectRadius g -> 0 < zoomFactor ->
  alongPlusZ (objectPosition g)
    (position (SyncView.cameraOf v (SyncView.onLoad v zoomFactor g s)))
    (objectRadius g * 2 * zoomFactor) /\
  SyncView.target (SyncView.controls (SyncView.view v (SyncView.onLoad v zoomFactor g s)))
    = objectPosition g /\
  (quaternion (SyncView.cameraOf v s) = identityQuaternion ->
   lookingAt (SyncView.cameraOf v (SyncView.onLoad v zoomFactor g s)) (objectPosition g)) /\
  alongPlusZ (objectPosition g)
    (position (Browser.camera (Browser.onLoad modelName g b)))
    (objectRadius g * 2) /\
  Browser.target (Browser.onLoad modelName g b) = objectPosition g /\
  (quaternion (Browser.camera b) = identityQuaternion ->
   lookingAt (Browser.camera (Browser.onLoad modelName g b)) (objectPosition g)) /\
  lookingAt (Browser.camera (Browser.onLoad modelName g (Browser.loadModel b)))
    (objectPosition g) /\
  quaternion (SyncView.cameraOf v (SyncView.onLoad v zoomFactor g s))
    = quaternion (SyncView.cameraOf v s) /\
  quaternion (Browser.camera (Browser.onLoad modelName g b))
    = quaternion (Browser.camera b) /\
  (lookingAt (SyncView.cameraOf v (SyncView.onLoad v zoomFactor g s)) (objectPosition g)
     <-> facesMinusZ (quaternion (SyncView.cameraOf v s))) /\
  (lookingAt (Browser.camera (Browser.onLoad modelName g b)) (objectPosition g)
     <-> facesMinusZ (quaternion (Browser.camera b))).
Proof.
  intros Hr Hz.
  assert (H2 : 0 < 2) by reflexivity.
  assert (Hd : 0 < objectRadius g * 2 * zoomFactor)
    by (apply positive_distance; assumption).
  assert (Hd' : 0 < objectRadius g * 2)
    by (apply Qmult_lt_0_compat; assumption).
  destruct (syncview_onLoad_view v zoomFactor g s) as [Hc Ht].
  unfold SyncView.cameraOf in *. rewrite Hc, Ht. cbn [position quaternion].
  split; [apply (placement_alongPlusZ g Hd) |].
  split; [reflexivity |].
  split; [intros Hq; rewrite Hq; apply (placement_lookingAt g Hd) |].
  cbn [Browser.onLoad Browser.hideSpinner Browser.setUI Browser.camera
       Browser.target Browser.loadModel Browser.showSpinner position quaternion].
  split; [apply (placement_alongPlusZ g Hd') |].
  split; [reflexivity |].
  split; [intros Hq; rewrite Hq; apply (placement_lookingAt g Hd') |].
  split; [apply (placement_lookingAt g Hd') |].
  split; [reflexivity |]. split; [reflexivity |].
  split; [apply (placement_lookingAt_iff g _ Hd) | apply (placement_lookingAt_iff g _ Hd')].
Qed.

(** ** Scaling *)

Definition sampleModel : Gltf Q := mkGltf (vec3 1 2 4) (vec3 0 1 0) 3.

Definition sampleModelBinary64 : Gltf float :=
  mkGltf (vec3 1 2 4)%float (vec3 0 1 0)%float 3%float.

Definition emptyModelBinary64 : Gltf float :=
  mkGltf (vec3 0 0 0)%float (vec3 0 0 0)%float 0%float.

Lemma camera_framing_after_load_witness :
  alongPlusZ (objectPosition sampleModel)
    (position (SyncView.cameraOf SyncView.V2
                 (SyncView.onLoad SyncView.V2 (9 # 10) sampleModel SyncView.pageLoad)))
    (objectRadius sampleModel * 2 * (9 # 10)).
Proof.
  refine (proj1 (@camera_framing_after_load SyncView.V2 (9 # 10)
                   "Upperlimb_polarized" sampleModel
                   SyncView.pageLoad Browser.pageLoad _ _)); reflexivity.
Defined.

(** C2, as stated, fails: a gesture made before the model arrives turns
    the camera, and the load that follows moves the camera onto the +Z ray
    and sets the orbit target but leaves that orientation.  On the loaded
    two-panel page, after an orbit gesture on canvas 1 to a pose that faces
    +Z, the arrival of model 1 puts camera 1 at the stated distance along
    +Z from the centre, facing away from it. *)
Lemma gesture_before_load_breaks_aim :
  let s := SyncView.runEvents
             [SyncView.Interaction SyncView.V1 SyncFacts.somePose;
              SyncView.Loaded SyncView.V1 (8 # 10) sampleModel]
             SyncView.pageLoad in
  alongPlusZ (objectPosition sampleModel)
    (position (SyncView.cameraOf SyncView.V1 s))
    (objectRadius sampleModel * 2 * (8 # 10)) /\
  SyncView.target (SyncView.controls (SyncView.view SyncView.V1 s))
    = objectPosition sampleModel /\
  ~ lookingAt (SyncView.cameraOf SyncView.V1 s) (objectPosition sampleModel).
Proof.
  cbv zeta.
  assert (Hcam : SyncView.cameraOf SyncView.V1
                   (SyncView.runEvents
                      [SyncView.Interaction SyncView.V1 SyncFacts.somePose;
                       SyncView.Loaded SyncView.V1 (8 # 10) sampleModel]
                      SyncView.pageLoad)
                 = mkCamera (cameraPlacement sampleModel
                               (objectRadius sampleModel * 2 * (8 # 10)))
                            (quat 0 1 0 0)) by reflexivity.
  rewrite Hcam. cbn [position].
  assert (Hd : 0 < objectRadius sampleModel * 2 * (8 # 10)) by reflexivity.
  split; [apply (placement_alongPlusZ sampleModel Hd) |].
  split; [reflexivity |].
  intros Hlook. apply (placement_lookingAt_iff sampleModel (quat 0 1 0 0) Hd) in Hlook.
  destruct Hlook as [_ [_ Hz]]. vm_compute in Hz. discriminate Hz.
Qed.

(** C3, as stated, fails: in the single-model browser the model
    [lowerlimb_2_diffuse] has the base factor 0.75, so a bounding box of
    extents 1 x 2 x 4 is scaled by 0.375 and its largest extent becomes 1.5,
    not the desired size 2, in exact arithmetic and in binary64 alike; and a
    scene of extent 0 gives NaN. *)
Lemma base_factor_breaks_normalisation :
  ~ (maxDimension sampleModel * Browser.scaleFactor "lowerlimb_2_diffuse" sampleModel
     == desiredSize) /\
  maxDimension sampleModel * Browser.scaleFactor "lowerlimb_2_diffuse" sampleModel
     == 3 # 2 /\
  nmul (maxDimension sampleModelBinary64)
       (Browser.scaleFactor "lowerlimb_2_diffuse" sampleModelBinary64) = 1.5%float /\
  PrimFloat.eqb
    (nmul (maxDimension sampleModelBinary64)
          (Browser.scaleFactor "lowerlimb_2_diffuse" sampleModelBinary64))
    desiredSize = false /\
  PrimFloat.is_nan
    (nmul (maxDimension emptyModelBinary64)
          (SyncView.scaleFactor emptyModelBinary64)) = true.
Proof.
  split; [| split; [| split; [| split]]]; try (vm_compute; reflexivity).
  intros Heq. vm_compute in Heq. discriminate Heq.
Qed.

(** C3, amended. For a model whose largest extent is positive, the largest
    extent times the applied scale factor is the base factor times the
    desired size, whatever the extents are: the desired size itself in the
    two-panel view and for every model whose base factor is 1. *)
Theorem scale_normalises_largest_extent (modelName : string) (g g' : Gltf Q) :
  0 < maxDimension g -> 0 < maxDimension g' ->
  maxDimension g * Browser.scaleFactor modelName g
    == Browser.baseScaleFactor modelName * desiredSize /\
  maxDimension g * SyncView.scaleFactor g == desiredSize /\
  (Browser.baseScaleFactor modelName == 1 ->
   maxDimension g * Browser.scaleFactor modelName g == desiredSize) /\
  maxDimension g' * Browser.scaleFactor modelName g'
    == maxDimension g * Browser.scaleFactor modelName g /\
  maxDimension g' * SyncView.scaleFactor g' == maxDimension g * SyncView.scaleFactor g.
Proof.
  intros Hm Hm'.
  assert (Hb : forall h : Gltf Q, 0 < maxDimension h ->
            maxDimension h * Browser.scaleFactor modelName h
            == Browser.baseScaleFactor modelName * desiredSize).
  { intros h Hh. exact_numbers. field. intros E. rewrite E in Hh. discriminate Hh. }
  assert (Hs : forall h : Gltf Q, 0 < maxDimension h ->
            maxDimension h * SyncView.scaleFactor h == desiredSize).
  { intros h Hh. exact_numbers. field. intros E. rewrite E in Hh. discriminate Hh. }
  split; [apply Hb; assumption |].
  split; [apply Hs; assumption |].
  split; [intros E; rewrite (Hb g Hm), E; ring |].
  split; [rewrite (Hb g Hm), (Hb g' Hm') | rewrite (Hs g Hm), (Hs g' Hm')];
    reflexivity.
Qed.

Lemma scale_normalises_largest_extent_witness :
  maxDimension sampleModel * Browser.scaleFactor "lowerlimb_polarized_Annotations" sampleModel
    == Browser.baseScaleFactor "lowerlimb_polarized_Annotations" * desiredSize.
Proof.
  refine (proj1 (@scale_normalises_largest_extent "lowerlimb_polarized_Annotations"
                   sampleModel sampleModel _ _)); reflexivity.
Defined.

(** ** The progress surface *)

Section Progress.
Context {A : Type} `{Number A}.






End Progress.


(** A progress event that announces no total ([total] = 0) gives the text
    [Infinity%] or [NaN%], which is no CSS width: the bar keeps the width of
    the report before, in exact arithmetic and in binary64. *)
Lemma progress_without_total_keeps_width :
  Browser.loadingProgress
    (Browser.onProgress 4096 0 (Browser.onProgress 1 2 (Browser.pageLoad (A := Q))))
  = Browser.loadingProgress (Browser.onProgress 1 2 (Browser.pageLoad (A := Q))) /\
  Browser.loadingProgress
    (Browser.onProgress 4096 0 (Browser.onProgress 1 2 (Browser.pageLoad (A := float))))%float
  = Some 50%float /\
  Browser.loadingProgress
    (Browser.onProgress 0 0 (Browser.pageLoad (A := float)))%float = None.
Proof. repeat split; vm_compute; reflexivity. Qed.

(** The error callback hides the spinner only: the loading bar that the load
    put up is still displayed after a failed load. *)
Lemma loading_bar_left_after_error :
  Browser.spinner (Browser.onError (Browser.pageLoad (A := Q))) = DisplayNone /\
  Browser.loadingBar (Browser.onError (Browser.pageLoad (A := Q))) = DisplayBlock.
Proof. split; reflexivity. Qed.

End LoaderFacts.

(** * Properties of pointer selection *)

Module PointerFacts.
Import Browser.

Lemma replaceUnderscores_length (s : string) :
  String.length (replaceUnderscores s) = String.length s.
Proof. induction s as [| c s IH]; cbn; [reflexivity | now rewrite IH]. Qed.

Lemma replaceUnderscores_get (s : string) (i : nat) :
  String.get i (replaceUnderscores s) = option_map underscoreToSpace (String.get i s).
Proof.
  revert i. induction s as [| c s IH]; intros i; cbn; [reflexivity |].
  destruct i; cbn; [reflexivity | apply IH].
Qed.

Lemma underscoreToSpace_clean (c : ascii) : underscoreToSpace c <> "_"%char.
Proof.
  unfold underscoreToSpace. destruct (Ascii.eqb_spec c "_"%char); [discriminate | assumption].
Qed.

Example replaceUnderscores_sample :
  replaceUnderscores "M_biceps_brachii_caput_longum" = "M biceps brachii caput longum"%string.
Proof. reflexivity. Qed.

Section Pointer.
Context {A : Type} `{Number A}.
Variable intersectObjects :
  Vector2 (A := A) -> Camera A -> list (SceneNode (A := A)) -> list Intersection.

(** What a pointer-down shows.  The library's ray cast, applied to the
    pointer, the camera and [scene.children], returns the objects hit,
    nearest first.  If there is a hit and the nearest object's name is not
    ["Mesh"], the info element is displayed with that name, each underscore
    replaced by a space and every other character kept (no underscore is
    left, the length is the same); if the name is ["Mesh"] or nothing is
    hit, the info element is hidden.  Nothing else on the page changes. *)
Lemma pointer_selection_display
  (e : PointerEvent) (rect : DOMRect) (s : State) :
  let hits := intersectObjects (pointerOf e rect) (camera s) (children s) in
  let s' := onPointerDown intersectObjects e rect s in
  (forall hit rest, hits = hit :: rest -> hitName hit <> "Mesh"%string ->
     infoDisplay s' = DisplayBlock /\
     infoText s' = replaceUnderscores (hitName hit) /\
     String.length (infoText s') = String.length (hitName hit) /\
     (forall i c, String.get i (hitName hit) = Some c ->
        String.get i (infoText s') =
          Some (if Ascii.eqb c "_"%char then " "%char else c)) /\
     (forall i, String.get i (infoText s') <> Some "_"%char)) /\
  (forall hit rest, hits = hit :: rest -> hitName hit = "Mesh"%string ->
     infoDisplay s' = DisplayNone /\ infoText s' = infoText s) /\
  (hits = [] -> infoDisplay s' = DisplayNone /\ infoText s' = infoText s) /\
  (children s' = children s /\ camera s' = camera s /\ target s' = target s /\
   spinner s' = spinner s /\ loadingBar s' = loadingBar s /\
   loadingProgress s' = loadingProgress s).
Proof.
  cbv zeta. unfold onPointerDown.
  destruct (intersectObjects (pointerOf e rect) (camera s) (children s))
    as [| h tl] eqn:Hhits.
  - repeat split; try reflexivity; intros; discriminate.
  - destruct (String.eqb_spec (hitName h) "Mesh"%string) as [Hm | Hm]; cbn [negb].
    + split; [intros hit rest E; injection E as -> ->; contradiction |].
      split; [intros; split; reflexivity |].
      split; [intros; discriminate |].
      repeat split; reflexivity.
    + split.
      * intros hit rest E _. injection E as <- <-. cbn [setInfo infoDisplay infoText].
        split; [reflexivity |]. split; [reflexivity |].
        split; [apply replaceUnderscores_length |].
        split.
        -- intros i c Hc. rewrite replaceUnderscores_get, Hc. reflexivity.
        -- intros i Hi. rewrite replaceUnderscores_get in Hi.
           destruct (String.get i (hitName h)) as [c |]; [| discriminate].
           cbn in Hi. injection Hi as Hi. exact (underscoreToSpace_clean c Hi).
      * split; [intros hit rest E; injection E as -> ->; contradiction |].
        split; [intros; discriminate |].
        repeat split; reflexivity.
Qed.

End Pointer.

(** A ray cast that hits the loaded models in scene order, for concrete
    runs. *)
Definition hitsInSceneOrder (_ : Vector2 (A := Q)) (_ : Camera Q)
  (nodes : list (SceneNode (A := Q))) : list Intersection :=
  flat_map (fun n => match n with
                     | Model _ name _ _ => [mkIntersection name]
                     | _ => []
                     end) nodes.

Example pointer_selection_sample :
  let s := onLoad "M_deltoideus_pars_clavicularis"
             (mkGltf (vec3 1 2 4) (vec3 0 1 0) 3) pageLoad in
  let s' := onPointerDown hitsInSceneOrder (mkPointerEvent 10 20)
              (mkRect 0 0 800 600) s in
  infoText s' = "M deltoideus pars clavicularis"%string /\
  infoDisplay s' = DisplayBlock.
Proof. split; reflexivity. Qed.

End PointerFacts.

(** * Properties of the quiz *)

Module QuizFacts.
Import Quiz.
Local Open Scope nat_scope.

Section Facts.
Variable quizData : list Question.

(** What the page shows agrees with the counters: answer buttons only while
    a question is pending, the result page only at the end, with the score
    it was built from. *)
Definition pageAgrees (s : State) : Prop :=
  match optionsElement s with
  | Buttons _ => currentQuestion s < List.length quizData
  | Result shown total _ =>
      currentQuestion s = List.length quizData /\
      shown = score s /\ total = List.length quizData
  end.

Definition reachable (s : State) : Prop :=
  invariant quizData s /\ pageAgrees s.

Lemma skipn_nth_error {X : Type} (l : list X) (n : nat) (x : X) :
  nth_error l n = Some x -> skipn n l = x :: skipn (S n) l.
Proof.
  revert n. induction l as [| y l IH]; intros [| n] Hn; cbn in *; try discriminate.
  - now injection Hn as ->.
  - now apply IH.
Qed.

Lemma correctAnswers_nil (qs : list Question) : correctAnswers qs [] = 0.
Proof. destruct qs; reflexivity. Qed.

Lemma showQuestion_ok (s : State) :
  currentQuestion s < List.length quizData ->
  exists q, nth_error quizData (currentQuestion s) = Some q /\
    showQuestion quizData s =
      Some (mkState (currentQuestion s) (score s) (question q) (Buttons (options q))).
Proof.
  intros Hlt. unfold showQuestion.
  destruct (nth_error quizData (currentQuestion s)) as [q |] eqn:Hq.
  - exists q. split; reflexivity.
  - apply nth_error_None in Hq. lia.
Qed.

(** The two ways [selectAnswer] ends, with the state it leaves. *)
Lemma selectAnswer_cases (text : string) (s : State) (q : Question) :
  nth_error quizData (currentQuestion s) = Some q ->
  let score' := if String.eqb text (answer q) then S (score s) else score s in
  (S (currentQuestion s) < List.length quizData ->
   exists q', nth_error quizData (S (currentQuestion s)) = Some q' /\
     selectAnswer quizData text s =
       Some (mkState (S (currentQuestion s)) score' (question q')
                     (Buttons (options q')))) /\
  (List.length quizData <= S (currentQuestion s) ->
   selectAnswer quizData text s =
     Some (mkState (S (currentQuestion s)) score' EmptyString
             (Result score' (List.length quizData) (map answer quizData)))).
Proof.
  intros Hq score'. unfold selectAnswer. rewrite Hq. cbn [currentQuestion].
  fold score'. split; intros Hlen.
  - destruct (Nat.ltb_spec (S (currentQuestion s)) (List.length quizData)); [| lia].
    destruct (showQuestion_ok
                (mkState (S (currentQuestion s)) score' (questionText s)
                         (optionsElement s))) as [q' [Hq' Hshow]];
      [cbn; lia |].
    exists q'. split; [exact Hq' | exact Hshow].
  - destruct (Nat.ltb_spec (S (currentQuestion s)) (List.length quizData)); [lia |].
    reflexivity.
Qed.

Lemma selectAnswer_reachable (text : string) (s : State) :
  reachable s -> currentQuestion s < List.length quizData ->
  exists s', selectAnswer quizData text s = Some s' /\ reachable s'.
Proof.
  intros [[Hsc Hcq] _] Hlt.
  destruct (nth_error quizData (currentQuestion s)) as [q |] eqn:Hq;
    [| apply nth_error_None in Hq; lia].
  destruct (selectAnswer_cases text s Hq) as [Hnext Hlast].
  assert (Hle : (if String.eqb text (answer q) then S (score s) else score s)
                <= S (currentQuestion s))
    by (destruct (String.eqb text (answer q)); lia).
  destruct (Nat.lt_ge_cases (S (currentQuestion s)) (List.length quizData)) as [Hl | Hl].
  - destruct (Hnext Hl) as [q' [_ ->]]. eexists. split; [reflexivity |].
    split; [split; cbn; lia | cbn; exact Hl].
  - rewrite (Hlast Hl). eexists. split; [reflexivity |].
    split; [split; cbn; lia | cbn; repeat split; lia].
Qed.

Lemma retakeQuiz_reachable (s : State) :
  quizData <> [] ->
  exists s', retakeQuiz quizData s = Some s' /\
    currentQuestion s' = 0 /\ score s' = 0 /\ reachable s'.
Proof.
  intros Hne. unfold retakeQuiz.
  assert (Hlen : 0 < List.length quizData)
    by (destruct quizData; [contradiction | cbn; lia]).
  destruct (showQuestion_ok (mkState 0 0 (questionText s) (optionsElement s)))
    as [q [_ ->]]; [exact Hlen |].
  eexists. split; [reflexivity |].
  unfold reachable, invariant, pageAgrees. cbn. repeat split; lia.
Qed.

Lemma handle_reachable (e : Event) (s : State) :
  quizData <> [] -> reachable s ->
  exists s', handle quizData e s = Some s' /\ reachable s'.
Proof.
  intros Hne Hr. unfold handle.
  destruct e as [i |]; destruct (optionsElement s) as [texts | sc tot ans] eqn:Hopt;
    try (exists s; split; [reflexivity | exact Hr]).
  - destruct (nth_error texts i) as [text |];
      [| exists s; split; [reflexivity | exact Hr]].
    apply selectAnswer_reachable; [exact Hr |].
    destruct Hr as [_ Hp]. unfold pageAgrees in Hp. now rewrite Hopt in Hp.
  - destruct (retakeQuiz_reachable s Hne) as [s' [Hs' [_ [_ Hr']]]].
    exists s'. split; assumption.
Qed.

Lemma runEvents_reachable (es : list Event) (s : State) :
  quizData <> [] -> reachable s ->
  exists s', runEvents quizData es s = Some s' /\ reachable s'.
Proof.
  intros Hne. revert s. induction es as [| e es IH]; intros s Hr; cbn.
  - exists s. split; [reflexivity | exact Hr].
  - destruct (handle_reachable e Hne Hr) as [s1 [-> Hr1]]. now apply IH.
Qed.

(** Answering the remaining questions one after the other ends on the
    result page and adds the number of correct answers to the score. *)
Lemma answerAll_counts (texts : list string) :
  forall (text : string) (s : State),
  currentQuestion s + S (List.length texts) = List.length quizData ->
  exists s', answerAll quizData (text :: texts) s = Some s' /\
    score s' = score s +
               correctAnswers (skipn (currentQuestion s) quizData) (text :: texts) /\
    currentQuestion s' = List.length quizData /\
    optionsElement s' =
      Result (score s') (List.length quizData) (map answer quizData).
Proof.
  induction texts as [| t2 texts IH]; intros text s Hlen.
  - destruct (nth_error quizData (currentQuestion s)) as [q |] eqn:Hq;
      [| apply nth_error_None in Hq; cbn in Hlen; lia].
    destruct (selectAnswer_cases text s Hq) as [_ Hlast].
    cbn [answerAll]. rewrite Hlast by (cbn in Hlen; lia).
    eexists. split; [reflexivity |]. cbn [score currentQuestion optionsElement].
    rewrite (skipn_nth_error _ _ Hq). cbn [correctAnswers].
    split; [| split; [cbn in Hlen; lia | reflexivity]].
    rewrite correctAnswers_nil. destruct (String.eqb text (answer q)); lia.
  - destruct (nth_error quizData (currentQuestion s)) as [q |] eqn:Hq;
      [| apply nth_error_None in Hq; cbn in Hlen; lia].
    destruct (selectAnswer_cases text s Hq) as [Hnext _].
    destruct Hnext as [q' [Hq' Hsel]]; [cbn in Hlen; lia |].
    change (answerAll quizData (text :: t2 :: texts) s)
      with (match selectAnswer quizData text s with
            | Some s' => answerAll quizData (t2 :: texts) s'
            | None => None
            end).
    rewrite Hsel.
    destruct (IH t2 (mkState (S (currentQuestion s))
                       (if String.eqb text (answer q) then S (score s) else score s)
                       (question q') (Buttons (options q'))))
      as [s' [Hrun [Hscore [Hcq Hres]]]]; [cbn in *; lia |].
    exists s'. split; [exact Hrun |]. split; [| split; assumption].
    rewrite Hscore. cbn [score currentQuestion].
    rewrite (skipn_nth_error _ _ Hq).
    change (correctAnswers (q :: skipn (S (currentQuestion s)) quizData)
              (text :: t2 :: texts))
      with ((if String.eqb text (answer q) then 1 else 0) +
            correctAnswers (skipn (S (currentQuestion s)) quizData) (t2 :: texts)).
    destruct (String.eqb text (answer q)); lia.
Qed.

End Facts.

(** C10. For a quiz with at least one question: [selectAnswer] moves to the
    next question and adds one to the score exactly when the clicked text is
    the stored answer of the current question; after every sequence of
    clicks the page offers, [score <= currentQuestion <= quizData.length]
    (and both are at least 0), and a result page shows the current score out
    of [quizData.length]; answering all questions from fresh counters ends
    on the result page, which shows the number of correctly answered
    questions; [retakeQuiz] sets question index and score back to 0. *)
Theorem quiz_score_counts_correct_answers (quizData : list Question) :
  0 < List.length quizData ->
  (forall (text : string) (s : State) (q : Question),
     nth_error quizData (currentQuestion s) = Some q ->
     exists s', selectAnswer quizData text s = Some s' /\
       currentQuestion s' = S (currentQuestion s) /\
       (text = answer q -> score s' = S (score s)) /\
       (text <> answer q -> score s' = score s)) /\
  (exists s0, start quizData = Some s0 /\
     currentQuestion s0 = 0 /\ score s0 = 0 /\
     forall es : list Event,
     exists s, runEvents quizData es s0 = Some s /\
       0 <= score s /\ score s <= currentQuestion s /\
       currentQuestion s <= List.length quizData /\
       (forall shown total answers,
          optionsElement s = Result shown total answers ->
          shown = score s /\ total = List.length quizData)) /\
  (forall (texts : list string) (s0 : State),
     currentQuestion s0 = 0 -> score s0 = 0 ->
     List.length texts = List.length quizData ->
     exists s, answerAll quizData texts s0 = Some s /\
       score s = correctAnswers quizData texts /\
       optionsElement s =
         Result (correctAnswers quizData texts) (List.length quizData)
                (map answer quizData)) /\
  (forall s : State,
     exists s', retakeQuiz quizData s = Some s' /\
       currentQuestion s' = 0 /\ score s' = 0).
Proof.
  intros Hlen.
  assert (Hne : quizData <> []) by (intros ->; cbn in Hlen; lia).
  split; [| split; [| split]].
  - intros text s q Hq.
    destruct (@selectAnswer_cases quizData text s q Hq) as [Hnext Hlast].
    destruct (Nat.lt_ge_cases (S (currentQuestion s)) (List.length quizData)) as [Hl | Hl].
    + destruct (Hnext Hl) as [q' [_ ->]]. eexists. split; [reflexivity |].
      cbn [currentQuestion score]. split; [reflexivity |].
      split; intros E.
      * apply String.eqb_eq in E. now rewrite E.
      * apply String.eqb_neq in E. now rewrite E.
    + rewrite (Hlast Hl). eexists. split; [reflexivity |].
      cbn [currentQuestion score]. split; [reflexivity |].
      split; intros E.
      * apply String.eqb_eq in E. now rewrite E.
      * apply String.eqb_neq in E. now rewrite E.
  - destruct (@retakeQuiz_reachable quizData (mkState 0 0 EmptyString (Buttons [])) Hne)
      as [s0 [Hs0 [Hcq [Hsc Hr]]]].
    exists s0. split; [exact Hs0 |]. split; [exact Hcq |]. split; [exact Hsc |].
    intros es. destruct (@runEvents_reachable quizData es s0 Hne Hr) as [s [Hrun [[Hi1 Hi2] Hp]]].
    exists s. split; [exact Hrun |].
    split; [lia |]. split; [exact Hi1 |]. split; [exact Hi2 |].
    intros shown total answers Hopt. unfold pageAgrees in Hp.
    rewrite Hopt in Hp. destruct Hp as [_ [-> ->]]. split; reflexivity.
  - intros texts s0 Hcq Hsc Hl.
    destruct texts as [| text texts]; [cbn in Hl; lia |].
    destruct (@answerAll_counts quizData texts text s0) as [s [Hrun [Hscore [_ Hres]]]];
      [rewrite Hcq; cbn in Hl; lia |].
    rewrite Hcq, Hsc in Hscore. cbn [skipn Nat.add] in Hscore.
    exists s. split; [exact Hrun |]. split; [exact Hscore |].
    rewrite Hres, Hscore. reflexivity.
  - intros s. destruct (@retakeQuiz_reachable quizData s Hne) as [s' [Hs' [Hcq [Hsc _]]]].
    exists s'. repeat split; assumption.
Qed.

Lemma quiz_score_counts_correct_answers_witness :
  exists s', retakeQuiz upperlimbQuizData
               (mkState 10 7 EmptyString
                  (Result 7 10 (map answer upperlimbQuizData))) = Some s' /\
    currentQuestion s' = 0 /\ score s' = 0.
Proof.
  refine (proj2 (proj2 (proj2 (@quiz_score_counts_correct_answers upperlimbQuizData _))) _).
  cbn. lia.
Defined.

(** Two complete runs on the shipped data: always the first button, then
    after a retake always the right button. *)
Example upperlimb_run :
  match start upperlimbQuizData with
  | Some s0 =>
      option_map optionsElement
        (runEvents upperlimbQuizData (repeat (ClickOption 0) 10) s0)
        = Some (Result 1 10 (map answer upperlimbQuizData)) /\
      option_map (fun s => (currentQuestion s, score s))
        (runEvents upperlimbQuizData
           (repeat (ClickOption 0) 10 ++
            [ClickRetake; ClickOption 5; ClickOption 3; ClickOption 2;
             ClickOption 0; ClickOption 1; ClickOption 2; ClickOption 4;
             ClickOption 2; ClickOption 1; ClickOption 3]) s0)
        = Some (10, 10)
  | None => False
  end.
Proof. vm_compute. split; reflexivity. Qed.

Example lowerlimb_run :
  match start lowerlimbQuizData with
  | Some s0 =>
      option_map (fun s => (currentQuestion s, score s))
        (runEvents lowerlimbQuizData
           [ClickOption 1; ClickOption 3; ClickRetake; ClickOption 0] s0)
        = Some (3, 2)
  | None => False
  end.
Proof. vm_compute. reflexivity. Qed.

End QuizFacts.

(** * Further properties of the two-panel synchronised display *)

Module SyncExtras.
Import SyncView SyncFacts.

Definition sameViewport (v w : Viewport) : bool :=
  match v, w with V1, V1 | V2, V2 => true | _, _ => false end.

(** A gesture on either canvas, or an animation frame. *)
Definition isGestureOrTick {A : Type} (e : Event (A := A)) : bool :=
  match e with
  | Interaction _ _ | Tick => true
  | _ => false
  end.

Section Facts.
Context {A : Type} `{Number A}.

#[local] Abbreviation State := (State (A := A)).
#[local] Abbreviation Event := (Event (A := A)).

Ltac unfold_sync :=
  unfold Cmd.run, Cmd.trace, handle, orbit, onChange, onChange1, onChange2,
    animate, toggleSync, initSyncButton, paintButton, requestAnimationFrame,
    render, copyPosition, copyQuaternion, setEnabled, Cmd.seq, Cmd.when,
    Cmd.prim, Cmd.skip in *.

(** The colour of the sync button tells the sync state. *)
Definition buttonShowsSync (s : State) : Prop :=
  syncButton s = if syncEnabled s then Green else Red.

(** The models that completed loading, in completion order, and the scene
    nodes they became in viewport [v]. *)
Definition loadedModels (es : list Event) : list (Gltf A) :=
  flat_map (fun e => match e with Loaded _ _ g => [g] | _ => [] end) es.

Definition loadedInto (v : Viewport) (es : list Event) : list SceneNode :=
  flat_map (fun e => match e with
                     | Loaded w _ g =>
                         if sameViewport v w
                         then [Model g (vec3 (scaleFactor g) (scaleFactor g) (scaleFactor g))]
                         else []
                     | _ => []
                     end) es.

Lemma handle_buttonShowsSync (e : Event) (s : State) :
  buttonShowsSync s -> buttonShowsSync (Cmd.run (handle e) s).
Proof.
  unfold buttonShowsSync. intros Hb.
  destruct e as [v p | | | v z g].
  - unfold_sync. destruct (enabledOf v s); [| exact Hb].
    destruct v; cbn; destruct (syncEnabled s) eqn:Hs; cbn; rewrite ?Hs; exact Hb.
  - unfold_sync. cbn. destruct (syncEnabled s) eqn:Hs; cbn; rewrite ?Hs; exact Hb.
  - unfold_sync. cbn. destruct (syncEnabled s); reflexivity.
  - cbn [handle Cmd.run snd]. unfold onLoad, hideSpinner, setSpinner.
    destruct v; cbn;
      match goal with |- context [if Nat.eqb ?a ?b then _ else _] =>
        destruct (Nat.eqb a b) end; cbn; exact Hb.
Qed.

Lemma runEvents_buttonShowsSync (es : list Event) (s : State) :
  buttonShowsSync s -> buttonShowsSync (runEvents es s).
Proof.
  revert s. induction es as [| e es IH]; intros s Hs; cbn [runEvents];
    [exact Hs | apply IH, handle_buttonShowsSync, Hs].
Qed.

(** X1. From the loaded page on, whatever happens, the sync button is green
    exactly while sync is on and red exactly while it is off. *)
Theorem button_colour_tracks_sync (es : list Event) :
  syncButton (runEvents es pageLoad) =
    (if syncEnabled (runEvents es pageLoad) then Green else Red) /\
  (syncButton (runEvents es pageLoad) = Green
     <-> syncEnabled (runEvents es pageLoad) = true) /\
  syncButton (runEvents es pageLoad) <> White.
Proof.
  assert (Hb : buttonShowsSync (runEvents es pageLoad))
    by (apply runEvents_buttonShowsSync; reflexivity).
  unfold buttonShowsSync in Hb. rewrite Hb.
  destruct (syncEnabled (runEvents es pageLoad)); repeat split;
    intros; try reflexivity; discriminate.
Qed.

(** X2. Two clicks on the sync button restore the page exactly, provided
    the button showed the sync state before. *)
Theorem toggleSync_twice (s : State) :
  syncButton s = (if syncEnabled s then Green else Red) ->
  Cmd.run toggleSync (Cmd.run toggleSync s) = s.
Proof.
  intros Hb. unfold_sync. destruct s as [w1 w2 o se n sp b]. cbn in *.
  rewrite negb_involutive. subst b. destruct se; reflexivity.
Qed.

(** What a completed load does to the page. *)
Lemma onLoad_effect (v : Viewport) (z : A) (g : Gltf A) (s : State) :
  view v (onLoad v z g s) =
    mkView (scene (view v s) ++
              [Model g (vec3 (scaleFactor g) (scaleFactor g) (scaleFactor g))])
           (mkCamera (cameraPlacement g (cameraDistance g z))
                     (quaternion (camera (view v s))))
           (mkControls (enabled (controls (view v s))) (objectPosition g)
                       (enableDamping (controls (view v s)))
                       (dampingFactor (controls (view v s)))) /\
  view (other v) (onLoad v z g s) = view (other v) s /\
  syncEnabled (onLoad v z g s) = syncEnabled s /\
  objects (onLoad v z g s) = objects s ++ [g] /\
  modelsLoaded (onLoad v z g s) = S (modelsLoaded s).
Proof.
  unfold onLoad, hideSpinner, setSpinner.
  destruct v; cbn;
    match goal with |- context [if Nat.eqb ?a ?b then _ else _] =>
      destruct (Nat.eqb a b) end; cbn; repeat split; reflexivity.
Qed.




(** Gestures, frames and button clicks leave scenes and the list of loaded
    objects alone. *)
Lemma handle_keeps_scenes (e : Event) (s : State) :
  isLoaded e = false ->
  objects (Cmd.run (handle e) s) = objects s /\
  scene (view V1 (Cmd.run (handle e) s)) = scene (view V1 s) /\
  scene (view V2 (Cmd.run (handle e) s)) = scene (view V2 s).
Proof.
  intros He. destruct e as [v p | | | v z g]; try discriminate; unfold_sync.
  - destruct (enabledOf v s); [| auto].
    destruct v; cbn; destruct (syncEnabled s); cbn; auto.
  - cbn. destruct (syncEnabled s); cbn; auto.
  - cbn. auto.
Qed.

Lemma runEvents_scenes (es : list Event) (s : State) :
  objects (runEvents es s) = objects s ++ loadedModels es /\
  modelsLoaded (runEvents es s) = (modelsLoaded s + List.length (loadedModels es))%nat /\
  scene (view V1 (runEvents es s)) = scene (view V1 s) ++ loadedInto V1 es /\
  scene (view V2 (runEvents es s)) = scene (view V2 s) ++ loadedInto V2 es.
Proof.
  revert s. induction es as [| e es IH]; intros s.
  - cbn. rewrite !app_nil_r. repeat split; lia.
  - cbn [runEvents]. destruct (IH (Cmd.run (handle e) s)) as [Ho [Hn [H1 H2]]].
    rewrite Ho, Hn, H1, H2. clear IH Ho Hn H1 H2.
    destruct (isLoaded e) eqn:He.
    + destruct e as [v p | | | v z g]; try discriminate.
      cbn [handle Cmd.run snd loadedModels loadedInto flat_map].
      destruct (onLoad_effect v z g s) as [Hv [Hother [_ [Ho Hn]]]].
      rewrite Ho, Hn, <- !app_assoc. cbn [List.length app].
      destruct v; cbn [other sameViewport] in *; rewrite Hv, Hother; cbn [scene];
        rewrite <- ?app_assoc; repeat split; try reflexivity;
        unfold loadedModels; lia.
    + destruct (handle_keeps_scenes e s He) as [Ho [H1 H2]].
      destruct (handle_keeps_loader e s He) as [Hn _].
      rewrite Ho, Hn, H1, H2.
      destruct e as [v p | | | v z g]; try discriminate;
        cbn [loadedModels loadedInto flat_map app]; repeat split; reflexivity.
Qed.

(** X4. Loads only ever add: after any history of events on the loaded
    page, [objects] holds exactly the models that arrived, in arrival order,
    [modelsLoaded] is its length, and the scene of each panel is its three
    lights followed by the models loaded into that panel, each scaled
    uniformly by its scale factor. *)
Theorem loads_only_add (es : list Event) :
  objects (runEvents es pageLoad) = loadedModels es /\
  modelsLoaded (runEvents es pageLoad) = List.length (objects (runEvents es pageLoad)) /\
  scene (view V1 (runEvents es pageLoad))
    = scene (newView (lit 8 10) (int 1)) ++ loadedInto V1 es /\
  scene (view V2 (runEvents es pageLoad))
    = scene (newView (lit 9 10) (lit 16 10)) ++ loadedInto V2 es /\
  List.length (scene (newView (lit 8 10) (int 1))) = 3%nat.
Proof.
  destruct (runEvents_scenes es pageLoad) as [Ho [Hn [H1 H2]]].
  rewrite Ho, Hn, H1, H2. repeat split; reflexivity.
Qed.

(** With sync on and both handlers enabled, gestures and frames keep the two
    cameras equal. *)
Definition mirrored (s : State) : Prop :=
  syncEnabled s = true /\ controlsOn s /\ cameraOf V1 s = cameraOf V2 s.

Lemma handle_mirrored (e : Event) (s : State) :
  isGestureOrTick e = true -> mirrored s -> mirrored (Cmd.run (handle e) s).
Proof.
  intros He [Hs [Hon Heq]]. destruct e as [v p | | | v z g]; try discriminate;
    cbn [handle].
  - destruct (orbit_flags v p s) as [Hs' Hon'].
    assert (Hen : enabledOf v s = true) by (destruct Hon; destruct v; assumption).
    destruct (orbit_sync v p s Hs Hen) as [E1 E2].
    split; [rewrite Hs'; exact Hs |]. split; [exact (Hon' Hon) |].
    now rewrite E1, E2.
  - destruct (animate_flags s) as [Hs' Hon'].
    destruct (animate_sync_cameras s Hs) as [E2 E1].
    split; [rewrite Hs'; exact Hs |]. split; [exact (Hon' Hon) |].
    now rewrite E1, E2.
Qed.

(** X5. With sync on, from the first animation frame on the two cameras
    have the same position and orientation after every gesture and every
    frame, for as long as no model arrives and the button is not clicked. *)
Theorem cameras_mirrored_between_frames (es : list Event) (s : State) :
  syncEnabled s = true -> controlsOn s ->
  forallb isGestureOrTick es = true ->
  cameraOf V1 (runEvents (Tick :: es) s) = cameraOf V2 (runEvents (Tick :: es) s).
Proof.
  intros Hs Hon Hes. cbn [runEvents handle].
  assert (Hm : mirrored (Cmd.run animate s)).
  { destruct (animate_flags s) as [Hs' Hon'].
    destruct (animate_sync_cameras s Hs) as [E2 E1].
    split; [rewrite Hs'; exact Hs |]. split; [exact (Hon' Hon) |].
    now rewrite E1, E2. }
  clear Hs Hon. revert Hm. generalize (Cmd.run animate s). clear s.
  induction es as [| e es IH]; intros s Hm; cbn [runEvents].
  - exact (proj2 (proj2 Hm)).
  - cbn in Hes. apply andb_prop in Hes. destruct Hes as [He Hes].
    apply (IH Hes). now apply handle_mirrored.
Qed.

Lemma toggleSync_on (s : State) :
  syncEnabled s = false ->
  syncEnabled (Cmd.run toggleSync s) = true /\
  cameraOf V1 (Cmd.run toggleSync s) = cameraOf V1 s /\
  cameraOf V2 (Cmd.run toggleSync s) = cameraOf V2 s.
Proof. intros Hs. unfold_sync. cbn. rewrite Hs. repeat split; reflexivity. Qed.

(** X17. Switching sync back on does not reconcile the two cameras by
    itself; the next event decides which pose survives.  If an animation
    frame comes first, panel 2 jumps to the pose of camera 1 and camera 1
    stays; if a gesture comes first, both cameras take the pose of that
    gesture, on whichever canvas it was made. *)
Theorem resync_first_event_decides (s : State) (v : Viewport) (p : Camera A) :
  syncEnabled s = false -> controlsOn s ->
  cameraOf V1 (runEvents [ClickSync] s) = cameraOf V1 s /\
  cameraOf V2 (runEvents [ClickSync] s) = cameraOf V2 s /\
  cameraOf V1 (runEvents [ClickSync; Tick] s) = cameraOf V1 s /\
  cameraOf V2 (runEvents [ClickSync; Tick] s) = cameraOf V1 s /\
  cameraOf V1 (runEvents [ClickSync; Interaction v p] s) = p /\
  cameraOf V2 (runEvents [ClickSync; Interaction v p] s) = p.
Proof.
  intros Hs Hon. cbn [runEvents handle].
  destruct (toggleSync_on s Hs) as [Hs' [E1 E2]].
  pose proof (toggle_flags Hon) as Hon'.
  destruct (animate_sync_cameras _ Hs') as [A2 A1].
  assert (Hen : enabledOf v (Cmd.run toggleSync s) = true)
    by (destruct Hon'; destruct v; assumption).
  destruct (orbit_sync v p _ Hs' Hen) as [O1 O2].
  rewrite A1, A2, O1, O2, E1, E2. repeat split; reflexivity.
Qed.

End Facts.

Lemma resync_first_event_decides_witness :
  cameraOf V2 (runEvents [ClickSync; Tick]
                 (runEvents [ClickSync; Interaction V2 somePose] pageLoad))
  = cameraOf V1 (runEvents [ClickSync; Interaction V2 somePose] (pageLoad (A := Q))).
Proof.
  refine (proj1 (proj2 (proj2 (proj2
            (@resync_first_event_decides Q _
               (runEvents [ClickSync; Interaction V2 somePose] pageLoad)
               V1 otherPose eq_refl _))))).
  split; reflexivity.
Defined.

Lemma toggleSync_twice_witness :
  Cmd.run toggleSync (Cmd.run toggleSync (pageLoad (A := Q))) = pageLoad.
Proof. exact (@toggleSync_twice Q pageLoad eq_refl). Defined.


Lemma cameras_mirrored_between_frames_witness :
  cameraOf V1 (runEvents (Tick :: [Interaction V2 somePose; Tick; Interaction V1 otherPose])
                 pageLoad)
  = cameraOf V2 (runEvents (Tick :: [Interaction V2 somePose; Tick; Interaction V1 otherPose])
                   pageLoad).
Proof.
  exact (@cameras_mirrored_between_frames Q _
           [Interaction V2 somePose; Tick; Interaction V1 otherPose]
           pageLoad eq_refl pageLoad_controlsOn eq_refl).
Defined.

End SyncExtras.

(** * Further properties of the single-model browser *)

From Stdlib Require Import Lqa.

Module BrowserExtras.
Import Browser.

Section Scene.
Context {A : Type} `{Number A}.
Variable intersectObjects :
  Vector2 (A := A) -> Camera A -> list (SceneNode (A := A)) -> list Intersection.

#[local] Abbreviation State := (State (A := A)).
#[local] Abbreviation Event := (Event (A := A)).
#[local] Abbreviation run := (runEvents intersectObjects).

Definition isModel (n : SceneNode (A := A)) : bool :=
  match n with Model _ _ _ _ => true | _ => false end.

Definition models (s : State) : list SceneNode := filter isModel (children s).
Definition lights (s : State) : list SceneNode :=
  filter (fun n => negb (isModel n)) (children s).

(** A history in which at most one load is in flight: the selector is used
    only when no load is pending, and progress, success and failure arrive
    only for a pending load.  [pending] tells whether a load is in flight at
    the start. *)
Fixpoint serialised (pending : bool) (es : list Event) : bool :=
  match es with
  | [] => true
  | SelectModel :: es' => negb pending && serialised true es'
  | Progress _ _ :: es' => pending && serialised pending es'
  | LoadSucceeded _ _ :: es' => pending && serialised false es'
  | LoadFailed :: es' => pending && serialised false es'
  | PointerDown _ _ :: es' => serialised pending es'
  end.

(** The scene holds no model while a load is pending, and otherwise at most
    the one model the global [object] refers to. *)
Definition tidy (pending : bool) (s : State) : Prop :=
  models s = [] \/
  (pending = false /\
   exists id name g scale,
     models s = [Model id name g scale] /\ object s = Some id).

Lemma browser_runEvents_app (es1 es2 : list Event) (s : State) :
  run (es1 ++ es2) s = run es2 (run es1 s).
Proof. unfold runEvents. apply fold_left_app. Qed.

Lemma filter_swap {X : Type} (f g : X -> bool) (l : list X) :
  filter f (filter g l) = filter g (filter f l).
Proof.
  induction l as [| x l IH]; cbn; [reflexivity |].
  destruct (f x) eqn:Hf, (g x) eqn:Hg; cbn; rewrite ?Hf, ?Hg, IH; reflexivity.
Qed.

Lemma filter_lights_kept (id : nat) (l : list (SceneNode (A := A))) :
  filter (fun n => negb (isModel n)) (filter (fun n => negb (isObject id n)) l)
  = filter (fun n => negb (isModel n)) l.
Proof.
  induction l as [| x l IH]; cbn; [reflexivity |].
  destruct x; cbn; rewrite ?IH; try reflexivity.
  destruct (Nat.eqb id id0); cbn; exact IH.
Qed.

(** What the selector does to the scene: it takes out the nodes [object]
    refers to and nothing else. *)
Lemma onModelSelect_scene (s : State) :
  object (onModelSelect s) = object s /\
  loads (onModelSelect s) = loads s /\
  lights (onModelSelect s) = lights s /\
  models (onModelSelect s) =
    match object s with
    | Some id => filter (fun n => negb (isObject id n)) (models s)
    | None => models s
    end.
Proof.
  unfold onModelSelect, loadModel, showSpinner, setUI, lights, models. cbn.
  destruct (object s) as [id |]; repeat split; try reflexivity.
  - apply filter_lights_kept.
  - apply filter_swap.
Qed.

Lemma onLoad_scene (name : string) (g : Gltf A) (s : State) :
  object (onLoad name g s) = Some (loads s) /\
  loads (onLoad name g s) = S (loads s) /\
  lights (onLoad name g s) = lights s /\
  models (onLoad name g s) =
    models s ++ [Model (loads s) name g
                   (vec3 (scaleFactor name g) (scaleFactor name g) (scaleFactor name g))].
Proof.
  unfold onLoad, hideSpinner, setUI, lights, models. cbn.
  rewrite !filter_app. cbn. rewrite app_nil_r. repeat split; reflexivity.
Qed.

Lemma handle_other_scene (e : Event) (s : State) :
  match e with SelectModel | LoadSucceeded _ _ => False | _ => True end ->
  children (handle intersectObjects e s) = children s /\
  object (handle intersectObjects e s) = object s /\
  loads (handle intersectObjects e s) = loads s.
Proof.
  destruct e as [| l t | n g | | e rect]; intros He; try contradiction; cbn.
  - repeat split; reflexivity.
  - repeat split; reflexivity.
  - unfold onPointerDown.
    destruct (intersectObjects _ _ _) as [| h tl]; [repeat split; reflexivity |].
    destruct (negb _); repeat split; reflexivity.
Qed.

Lemma handle_lights (e : Event) (s : State) :
  lights (handle intersectObjects e s) = lights s.
Proof.
  destruct e as [| l t | n g | | e rect].
  - apply onModelSelect_scene.
  - unfold lights. now rewrite (proj1 (handle_other_scene (Progress l t) s I)).
  - apply onLoad_scene.
  - unfold lights. now rewrite (proj1 (handle_other_scene LoadFailed s I)).
  - unfold lights. now rewrite (proj1 (handle_other_scene (PointerDown e rect) s I)).
Qed.

Lemma handle_tidy (e : Event) (es : list Event) (pending : bool) (s : State) :
  serialised pending (e :: es) = true -> tidy pending s ->
  exists pending', serialised pending' es = true /\
                   tidy pending' (handle intersectObjects e s).
Proof.
  intros Hser Ht. destruct e as [| l t | n g | | e rect]; cbn in Hser.
  - apply andb_prop in Hser. destruct Hser as [Hp Hser].
    exists true. split; [exact Hser |]. left.
    cbn [handle]. rewrite (proj2 (proj2 (proj2 (onModelSelect_scene s)))).
    destruct Ht as [Hm | [_ [id [name [g [sc [Hm Ho]]]]]]].
    + rewrite Hm. destruct (object s); reflexivity.
    + rewrite Ho, Hm. cbn. now rewrite Nat.eqb_refl.
  - apply andb_prop in Hser. destruct Hser as [Hp Hser].
    exists pending. split; [exact Hser |].
    unfold tidy, models in *.
    destruct (handle_other_scene (Progress l t) s I) as [-> [-> _]]. exact Ht.
  - apply andb_prop in Hser. destruct Hser as [Hp Hser]. subst pending.
    exists false. split; [exact Hser |]. right. split; [reflexivity |].
    destruct Ht as [Hm | [Hf _]]; [| discriminate].
    cbn [handle]. destruct (onLoad_scene n g s) as [Ho [_ [_ Hmod]]].
    rewrite Hmod, Hm, Ho. cbn. eauto 6.
  - apply andb_prop in Hser. destruct Hser as [Hp Hser]. subst pending.
    exists false. split; [exact Hser |]. left.
    destruct Ht as [Hm | [Hf _]]; [| discriminate].
    unfold models in *.
    now destruct (handle_other_scene LoadFailed s I) as [-> _].
  - exists pending. split; [exact Hser |].
    unfold tidy, models in *.
    destruct (handle_other_scene (PointerDown e rect) s I) as [-> [-> _]]. exact Ht.
Qed.

Lemma runEvents_tidy (es : list Event) (pending : bool) (s : State) :
  serialised pending es = true -> tidy pending s ->
  exists pending', tidy pending' (run es s).
Proof.
  revert pending s. induction es as [| e es IH]; intros pending s Hser Ht.
  - exists pending. exact Ht.
  - destruct (@handle_tidy e es pending s Hser Ht) as [p' [Hser' Ht']].
    exact (IH p' _ Hser' Ht').
Qed.

Lemma runEvents_lights (es : list Event) (s : State) :
  lights (run es s) = lights s.
Proof.
  revert s. induction es as [| e es IH]; intros s; [reflexivity |].
  cbn. change (fold_left (fun s0 e0 => handle intersectObjects e0 s0) es
                 (handle intersectObjects e s))
    with (run es (handle intersectObjects e s)).
  rewrite IH. apply handle_lights.
Qed.

(** X6. As long as at most one load is in flight (the selector is not used
    while a load is pending), the scene never holds more than one model, the
    global [object] refers to every model that is in the scene, and the three
    lights are the only other nodes. *)
Theorem serialised_loads_keep_one_model (es : list Event) :
  serialised true es = true ->
  (List.length (models (run es pageLoad)) <= 1)%nat /\
  (forall id name g scale,
     In (Model id name g scale) (children (run es pageLoad)) ->
     object (run es pageLoad) = Some id) /\
  lights (run es pageLoad) =
    [ AmbientLight;
      DirectionalLight (vec3 (int 0) (int 1) (int 1));
      DirectionalLight (vec3 (int 0) (int 1) (int (-1))) ].
Proof.
  intros Hser.
  assert (H0 : tidy true (pageLoad (A := A))) by (left; reflexivity).
  destruct (@runEvents_tidy es true pageLoad Hser H0) as [p' Ht].
  split; [| split].
  - destruct Ht as [-> | [_ [id [name [g [sc [-> _]]]]]]]; cbn; lia.
  - intros id name g sc Hin.
    assert (Hm : In (Model id name g sc) (models (run es pageLoad)))
      by (unfold models; apply filter_In; split; [exact Hin | reflexivity]).
    destruct Ht as [Hnil | [_ [id' [name' [g' [sc' [Hone Ho]]]]]]].
    + rewrite Hnil in Hm. contradiction.
    + rewrite Hone in Hm. destruct Hm as [E | []]. injection E as <- _ _ _. exact Ho.
  - rewrite runEvents_lights. reflexivity.
Qed.

(** The model with identity [k] is in the scene and out of the selector's
    reach: [object] refers, and will refer, to younger models only. *)
Definition orphaned (k : nat) (n : SceneNode (A := A)) (s : State) : Prop :=
  In n (children s) /\ isObject k n = true /\
  (k < loads s)%nat /\ (forall i, object s = Some i -> (k < i)%nat).

Lemma handle_orphaned (k : nat) (n : SceneNode) (e : Event) (s : State) :
  orphaned k n s -> orphaned k n (handle intersectObjects e s).
Proof.
  intros [Hin [Hk [Hl Ho]]].
  destruct e as [| l t | name g | | e rect].
  - cbn [handle]. destruct (onModelSelect_scene s) as [Eo [El _]].
    split; [| split; [exact Hk | split; [now rewrite El | now rewrite Eo]]].
    unfold onModelSelect, loadModel, showSpinner, setUI. cbn.
    destruct (object s) as [i |] eqn:Hobj; [| exact Hin].
    apply filter_In. split; [exact Hin |].
    specialize (Ho i eq_refl). destruct n as [| p | id' nm g' sc]; try discriminate.
    cbn in *. apply Nat.eqb_eq in Hk. subst id'.
    destruct (Nat.eqb_spec i k); [lia | reflexivity].
  - destruct (handle_other_scene (Progress l t) s I) as [Ec [Eo El]].
    unfold orphaned. rewrite Ec, Eo, El. auto.
  - cbn [handle]. destruct (onLoad_scene name g s) as [Eo [El _]].
    split; [| split; [exact Hk | split; [rewrite El; lia |]]].
    + unfold onLoad, hideSpinner, setUI. cbn. apply in_or_app. now left.
    + intros i Hi. rewrite Eo in Hi. injection Hi as <-. exact Hl.
  - destruct (handle_other_scene LoadFailed s I) as [Ec [Eo El]].
    unfold orphaned. rewrite Ec, Eo, El. auto.
  - destruct (handle_other_scene (PointerDown e rect) s I) as [Ec [Eo El]].
    unfold orphaned. rewrite Ec, Eo, El. auto.
Qed.

Lemma runEvents_orphaned (k : nat) (n : SceneNode) (es : list Event) (s : State) :
  orphaned k n s -> orphaned k n (run es s).
Proof.
  revert s. induction es as [| e es IH]; intros s Ho; [exact Ho |].
  cbn. change (fold_left (fun s0 e0 => handle intersectObjects e0 s0) es
                 (handle intersectObjects e s))
    with (run es (handle intersectObjects e s)).
  apply IH, handle_orphaned, Ho.
Qed.

(** X7. Overlapping loads leak a model.  When a second load is started
    before the first has arrived and both succeed, both models are in the
    scene together, and the first one (of name [a]) stays in the scene after
    every later history of selections, loads and clicks: the selector only
    ever removes the model [object] refers to. *)
Theorem overlapping_loads_leave_orphan
  (s : State) (a b : string) (ga gb : Gltf A) (es : list Event) :
  let first := Model (loads s) a ga
                 (vec3 (scaleFactor a ga) (scaleFactor a ga) (scaleFactor a ga)) in
  let second := Model (S (loads s)) b gb
                 (vec3 (scaleFactor b gb) (scaleFactor b gb) (scaleFactor b gb)) in
  let overlap := [SelectModel; SelectModel; LoadSucceeded a ga; LoadSucceeded b gb] in
  models (run overlap s)
    = models (onModelSelect (onModelSelect s)) ++ [first; second] /\
  object (run overlap s) = Some (S (loads s)) /\
  In first (children (run (overlap ++ es) s)).
Proof.
  cbv zeta. set (s2 := onModelSelect (onModelSelect s)).
  assert (Hl2 : loads s2 = loads s).
  { unfold s2. rewrite (proj1 (proj2 (onModelSelect_scene (onModelSelect s)))).
    apply onModelSelect_scene. }
  assert (Hrun : run [SelectModel; SelectModel; LoadSucceeded a ga; LoadSucceeded b gb] s
                 = onLoad b gb (onLoad a ga s2)) by reflexivity.
  destruct (onLoad_scene a ga s2) as [Eo1 [El1 [_ Em1]]].
  destruct (onLoad_scene b gb (onLoad a ga s2)) as [Eo2 [El2 [_ Em2]]].
  rewrite Hl2 in *.
  split; [| split].
  - rewrite Hrun, Em2, Em1, El1, <- app_assoc. reflexivity.
  - rewrite Hrun, Eo2, El1. reflexivity.
  - rewrite browser_runEvents_app, Hrun.
    apply (@runEvents_orphaned (loads s)). split; [| split; [| split]].
    + assert (Hin : In (Model (loads s) a ga
                          (vec3 (scaleFactor a ga) (scaleFactor a ga) (scaleFactor a ga)))
                       (models (onLoad b gb (onLoad a ga s2)))).
      { rewrite Em2, Em1. apply in_or_app. left. apply in_or_app. right. now left. }
      unfold models in Hin. apply filter_In in Hin. exact (proj1 Hin).
    + cbn. apply Nat.eqb_refl.
    + rewrite El2, El1. lia.
    + intros i Hi. rewrite Eo2, El1 in Hi. injection Hi as <-. lia.
Qed.

End Scene.

(** The ray cast that hits nothing. *)
Definition noHits (_ : Vector2 (A := Q)) (_ : Camera Q)
  (_ : list (SceneNode (A := Q))) : list Intersection := [].

(** A history with one load in flight at a time. *)
Definition sampleHistory : list (Event (A := Q)) :=
  [ Progress 1 2;
    LoadSucceeded "Upperlimb_diffuse" (mkGltf (vec3 1 2 4) (vec3 0 1 0) 3);
    SelectModel; Progress 1 4; LoadFailed; SelectModel;
    LoadSucceeded "lowerlimb_diffuse" (mkGltf (vec3 2 2 2) (vec3 0 0 0) 2) ].

Lemma serialised_loads_keep_one_model_witness :
  (List.length (models (runEvents noHits sampleHistory pageLoad)) <= 1)%nat.
Proof.
  exact (proj1 (@serialised_loads_keep_one_model Q _ noHits sampleHistory eq_refl)).
Defined.

(** ** Numbers of the browser, over the exact rationals *)

Ltac browser_numbers :=
  cbv [pointerOf px py clientX clientY left top width height
       Browser.scaleFactor Browser.cameraDistance applyScaleToFit scaleToFit
       desiredSize int lit nadd nsub nmul ndiv nopp Number_Q] in *.

Lemma unit_fraction (a w : Q) : 0 < w -> 0 <= a -> a <= w -> 0 <= a / w /\ a / w <= 1.
Proof.
  intros Hw Ha Haw. split.
  - apply Qle_shift_div_l; [exact Hw | lra].
  - apply Qle_shift_div_r; [exact Hw | lra].
Qed.

Lemma fraction_increasing (a b w : Q) : 0 < w -> a < b -> a / w < b / w.
Proof.
  intros Hw Hab. unfold Qdiv. apply Qmult_lt_compat_r; [| exact Hab].
  now apply Qinv_lt_0_compat.
Qed.

(** X8. For a canvas rectangle of positive size, a pointer position inside
    the rectangle is mapped into the square [-1,1] x [-1,1]: the left edge to
    x = -1, the right edge to x = 1, the top edge to y = 1 and the bottom
    edge to y = -1; x grows with [clientX] and y falls with [clientY], so
    different pixels give different pointers. *)
Theorem pointer_maps_canvas_to_square (e e' : PointerEvent (A := Q)) (rect : DOMRect) :
  0 < width rect -> 0 < height rect ->
  left rect <= clientX e -> clientX e <= left rect + width rect ->
  top rect <= clientY e -> clientY e <= top rect + height rect ->
  (- (1) <= px (pointerOf e rect) /\ px (pointerOf e rect) <= 1) /\
  (- (1) <= py (pointerOf e rect) /\ py (pointerOf e rect) <= 1) /\
  (clientX e == left rect -> px (pointerOf e rect) == - (1)) /\
  (clientX e == left rect + width rect -> px (pointerOf e rect) == 1) /\
  (clientY e == top rect -> py (pointerOf e rect) == 1) /\
  (clientY e == top rect + height rect -> py (pointerOf e rect) == - (1)) /\
  (clientX e < clientX e' -> px (pointerOf e rect) < px (pointerOf e' rect)) /\
  (clientY e < clientY e' -> py (pointerOf e' rect) < py (pointerOf e rect)).
Proof.
  destruct e as [cx cy], e' as [cx' cy'], rect as [l t w h]. browser_numbers.
  intros Hw Hh Hx1 Hx2 Hy1 Hy2.
  assert (Hw0 : ~ w == 0) by lra. assert (Hh0 : ~ h == 0) by lra.
  destruct (@unit_fraction (cx - l) w Hw) as [Fx0 Fx1]; [lra | lra |].
  destruct (@unit_fraction (cy - t) h Hh) as [Fy0 Fy1]; [lra | lra |].
  split; [split; lra |]. split; [split; lra |].
  split; [intros E; rewrite E; field; exact Hw0 |].
  split; [intros E; rewrite E; field; exact Hw0 |].
  split; [intros E; rewrite E; field; exact Hh0 |].
  split; [intros E; rewrite E; field; exact Hh0 |].
  split; intros Hlt.
  - assert (F := @fraction_increasing (cx - l) (cx' - l) w Hw). lra.
  - assert (F := @fraction_increasing (cy - t) (cy' - t) h Hh). lra.
Qed.

Lemma pointer_maps_canvas_to_square_witness :
  - (1) <= px (pointerOf (mkPointerEvent 200 450) (mkRect 0 0 800 600)) /\
  px (pointerOf (mkPointerEvent 200 450) (mkRect 0 0 800 600)) <= 1.
Proof.
  refine (proj1 (@pointer_maps_canvas_to_square
                   (mkPointerEvent 200 450) (mkPointerEvent 201 450)
                   (mkRect 0 0 800 600) _ _ _ _ _ _));
    vm_compute; first [reflexivity | discriminate].
Defined.

(** Over the exact numbers a width is accepted whenever a positive total
    was announced. *)
Lemma widthAccepted_positive (loaded total : Q) :
  0 < total -> 0 <= loaded -> widthAccepted loaded total = true.
Proof.
  intros Ht Hl. unfold widthAccepted, progressPercent.
  cbv [int lit nmul ndiv neqb nleb Number_Q].
  apply andb_true_intro. split.
  - apply negb_true_iff. destruct (Qeq_bool total (0 # 1)) eqn:E; [| reflexivity].
    apply Qeq_bool_eq in E. lra.
  - apply Qle_bool_iff.
    assert (F : 0 <= loaded / total)
      by (apply Qle_shift_div_l; [exact Ht | lra]).
    lra.
Qed.

Lemma onProgress_accepted (loaded total : Q) (s : State (A := Q)) :
  widthAccepted loaded total = true ->
  loadingProgress (onProgress loaded total s) = Some (loaded / total * 100).
Proof.
  intros Hw. cbn [onProgress loadingProgress]. rewrite Hw. reflexivity.
Qed.

(** X9. For a download of known positive size, [onProgress] sets the bar to
    a width between 0 and 100 percent, to 100 exactly when everything has
    arrived, and a later report with more bytes never gives a smaller
    width. *)
Theorem progress_width_bounded
  (loaded loaded' total : Q) (s : State (A := Q)) :
  0 < total -> 0 <= loaded -> loaded <= loaded' -> loaded' <= total ->
  exists w w' : Q,
    loadingProgress (onProgress loaded total s) = Some w /\
    loadingProgress (onProgress loaded' total (onProgress loaded total s)) = Some w' /\
    0 <= w /\ w <= w' /\ w' <= 100 /\
    (loaded == total -> w == 100) /\
    (w == 100 -> loaded == total).
Proof.
  intros Ht H0 Hll Hlt.
  exists (loaded / total * 100), (loaded' / total * 100).
  split; [apply onProgress_accepted, widthAccepted_positive; [exact Ht | exact H0] |].
  split; [apply onProgress_accepted, widthAccepted_positive; [exact Ht | lra] |].
  assert (Ht0 : ~ total == 0) by lra.
  destruct (@unit_fraction loaded total Ht) as [F0 F1]; [lra | lra |].
  destruct (@unit_fraction loaded' total Ht) as [F0' F1']; [lra | lra |].
  assert (Fle : loaded / total <= loaded' / total).
  { unfold Qdiv. apply Qmult_le_compat_r; [exact Hll |].
    apply Qlt_le_weak. now apply Qinv_lt_0_compat. }
  split; [lra |]. split; [lra |]. split; [lra |].
  split; [intros E; rewrite E; field; exact Ht0 |].
  intros E. assert (E1 : loaded / total == 1) by lra.
  transitivity (loaded / total * total); [field; exact Ht0 | rewrite E1; ring].
Qed.

Lemma progress_width_bounded_witness :
  exists w w' : Q,
    loadingProgress (onProgress 512 2048 pageLoad) = Some w /\
    loadingProgress (onProgress 2048 2048 (onProgress 512 2048 pageLoad)) = Some w' /\
    0 <= w /\ w <= w' /\ w' <= 100 /\
    (512 == 2048 -> w == 100) /\ (w == 100 -> 512 == 2048).
Proof.
  refine (@progress_width_bounded 512 2048 2048 pageLoad _ _ _ _);
    vm_compute; first [reflexivity | discriminate].
Defined.

(** The base factors of the table lie between 0.75 and 1, and so does the
    factor 1 of a model without an entry. *)
Lemma baseScaleFactor_range (modelName : string) :
  3 # 4 <= baseScaleFactor (A := Q) modelName /\ baseScaleFactor (A := Q) modelName <= 1.
Proof.
  unfold baseScaleFactor, lookupModel.
  destruct (find (fun e => String.eqb modelName (fst e)) modelTable) as [e |] eqn:Hf;
    cbn [option_map]; [| split; vm_compute; discriminate].
  apply find_some in Hf. destruct Hf as [Hin _].
  assert (Hall : Forall (fun e : string * (Q * Q) =>
                           3 # 4 <= fst (snd e) /\ fst (snd e) <= 1) modelTable)
    by (repeat constructor; vm_compute; discriminate).
  rewrite Forall_forall in Hall. exact (Hall e Hin).
Qed.

Lemma maxDimension_bounds (g : Gltf Q) :
  vx (objectSize g) <= maxDimension g /\
  vy (objectSize g) <= maxDimension g /\
  vz (objectSize g) <= maxDimension g.
Proof.
  unfold maxDimension. cbv [nmax Number_Q].
  set (x := vx (objectSize g)). set (y := vy (objectSize g)). set (z := vz (objectSize g)).
  pose proof (Q.le_max_l x y). pose proof (Q.le_max_r x y).
  pose proof (Q.le_max_l (Qmax x y) z). pose proof (Q.le_max_r (Qmax x y) z).
  repeat split; lra.
Qed.

Lemma scaled_extent_le (e m k : Q) : 0 <= k -> e <= m -> e * k <= m * k.
Proof. intros Hk Hem. now apply Qmult_le_compat_r. Qed.

(** X10. Whatever its name and its units, a loaded model with a positive
    largest extent is shown with a positive scale factor, none of its three
    extents exceeds the desired size 2 after scaling, and its largest extent
    is at least 1.5 after scaling. *)
Theorem scaled_model_fits (modelName : string) (g : Gltf Q) :
  0 < maxDimension g ->
  0 < scaleFactor modelName g /\
  vx (objectSize g) * scaleFactor modelName g <= desiredSize /\
  vy (objectSize g) * scaleFactor modelName g <= desiredSize /\
  vz (objectSize g) * scaleFactor modelName g <= desiredSize /\
  3 # 2 <= maxDimension g * scaleFactor modelName g /\
  maxDimension g * scaleFactor modelName g <= desiredSize.
Proof.
  intros Hm.
  destruct (baseScaleFactor_range modelName) as [Hb1 Hb2].
  destruct (maxDimension_bounds g) as [Hx [Hy Hz]].
  assert (Hprod : maxDimension g * scaleFactor modelName g
                  == baseScaleFactor modelName * 2).
  { browser_numbers. field. lra. }
  assert (Hk : 0 < scaleFactor modelName g).
  { browser_numbers. apply Qmult_lt_0_compat; [lra |].
    apply Qlt_shift_div_l; [exact Hm | lra]. }
  assert (Hk' : 0 <= scaleFactor modelName g) by lra.
  pose proof (@scaled_extent_le _ _ _ Hk' Hx).
  pose proof (@scaled_extent_le _ _ _ Hk' Hy).
  pose proof (@scaled_extent_le _ _ _ Hk' Hz).
  change (desiredSize (A := Q)) with (2 # 1).
  repeat split; lra.
Qed.

Lemma scaled_model_fits_witness :
  vz (objectSize (mkGltf (vec3 120 80 400) (vec3 0 0 200) 215))
    * scaleFactor "lowerlimb_polarized" (mkGltf (vec3 120 80 400) (vec3 0 0 200) 215)
  <= desiredSize.
Proof.
  refine (proj1 (proj2 (proj2 (proj2
            (@scaled_model_fits "lowerlimb_polarized"
               (mkGltf (vec3 120 80 400) (vec3 0 0 200) 215) _))))).
  vm_compute. reflexivity.
Defined.

(** The same model measured in units [u] times smaller: every length is
    [u] times larger. *)
Definition rescale (u : Q) (g : Gltf Q) : Gltf Q :=
  mkGltf (vscale u (objectSize g)) (vscale u (objectPosition g))
         (nmul u (objectRadius g)).

Lemma Qmax_scale (u a b : Q) : 0 < u -> Qmax (u * a) (u * b) == u * Qmax a b.
Proof.
  intros Hu.
  destruct (Q.max_spec a b) as [[Hab ->] | [Hba ->]].
  - apply Q.max_r. apply (proj2 (Qmult_le_l a b u Hu)).
    apply Qlt_le_weak. exact Hab.
  - apply Q.max_l. apply (proj2 (Qmult_le_l b a u Hu)). exact Hba.
Qed.

Lemma maxDimension_rescale (u : Q) (g : Gltf Q) :
  0 < u -> maxDimension (rescale u g) == u * maxDimension g.
Proof.
  intros Hu. unfold maxDimension, rescale, vscale. cbv [nmax nmul Number_Q]. cbn.
  rewrite (Qmax_scale _ _ Hu). apply (Qmax_scale _ _ Hu).
Qed.

(** X11. A change of units does not change what is shown of the model but
    does change where the camera goes: for the same model with all lengths
    multiplied by [u > 0], the scaled extents (extent times scale factor)
    are the same, while the camera distance, computed from the unscaled
    bounding sphere, is multiplied by [u]. *)
Theorem units_change_camera_not_size (u : Q) (modelName : string) (g : Gltf Q) :
  0 < u -> 0 < maxDimension g ->
  vx (objectSize (rescale u g)) * scaleFactor modelName (rescale u g)
    == vx (objectSize g) * scaleFactor modelName g /\
  vy (objectSize (rescale u g)) * scaleFactor modelName (rescale u g)
    == vy (objectSize g) * scaleFactor modelName g /\
  vz (objectSize (rescale u g)) * scaleFactor modelName (rescale u g)
    == vz (objectSize g) * scaleFactor modelName g /\
  cameraDistance (rescale u g) == u * cameraDistance g /\
  SyncView.scaleFactor (rescale u g) * u == SyncView.scaleFactor g.
Proof.
  intros Hu Hm.
  pose proof (maxDimension_rescale g Hu) as Hr.
  cbv [SyncView.scaleFactor]. browser_numbers.
  rewrite Hr. cbn [rescale objectSize objectRadius vscale vx vy vz].
  cbv [nmul Number_Q].
  assert (Hu0 : ~ u == 0) by lra.
  assert (Hm0 : ~ maxDimension g == 0)
    by (intros E; rewrite E in Hm; discriminate Hm).
  repeat split; field; auto.
Qed.

Lemma units_change_camera_not_size_witness :
  cameraDistance (rescale 1000 (mkGltf (vec3 1 2 4) (vec3 0 1 0) 3))
    == 1000 * cameraDistance (mkGltf (vec3 1 2 4) (vec3 0 1 0) 3).
Proof.
  refine (proj1 (proj2 (proj2 (proj2
            (@units_change_camera_not_size 1000 "Upperlimb_diffuse"
               (mkGltf (vec3 1 2 4) (vec3 0 1 0) 3) _ _)))));
    vm_compute; reflexivity.
Defined.

(** ** Models without a table entry *)

Section Unlisted.
Context {A : Type} `{Number A}.

(** X12. A model that has no case in the [switch] is scaled by the fit
    alone and takes over the ambient intensity of the model shown before it:
    after a listed model [n1] with intensity [i1], selecting and loading an
    unlisted model [n2] leaves the ambient light at [i1]; if the unlisted
    model is the first one loaded, the light stays at its initial 0.5. *)
Theorem unlisted_model_inherits_light
  (n1 n2 : string) (g1 g2 : Gltf A) (k1 i1 : A) (s : State (A := A)) :
  lookupModel n1 = Some (k1, i1) -> lookupModel (A := A) n2 = None ->
  ambientLightIntensity (onLoad n1 g1 s) = i1 /\
  ambientLightIntensity (onLoad n2 g2 (onModelSelect (onLoad n1 g1 s))) = i1 /\
  ambientintensity (onLoad n2 g2 (onModelSelect (onLoad n1 g1 s))) = i1 /\
  scaleFactor n2 g2 = applyScaleToFit (int 1) g2 /\
  scaleFactor n1 g1 = applyScaleToFit k1 g1 /\
  ambientLightIntensity (onLoad n2 g2 pageLoad) = lit 5 10.
Proof.
  intros H1 H2.
  assert (Hload : forall (n : string) (g : Gltf A) (s' : State (A := A)),
            ambientLightIntensity (onLoad n g s') = modelIntensity n (ambientintensity s') /\
            ambientintensity (onLoad n g s') = modelIntensity n (ambientintensity s'))
    by (intros; split; reflexivity).
  assert (Hsel : forall s' : State (A := A),
            ambientintensity (onModelSelect s') = ambientintensity s')
    by (intros; reflexivity).
  rewrite !(proj1 (Hload _ _ _)), !(proj2 (Hload _ _ _)), Hsel, (proj2 (Hload _ _ _)).
  unfold scaleFactor, baseScaleFactor, modelIntensity. rewrite H1, H2.
  repeat split; reflexivity.
Qed.

End Unlisted.

Lemma unlisted_model_inherits_light_witness :
  ambientLightIntensity
    (onLoad "skull" (mkGltf (vec3 1 2 4) (vec3 0 1 0) 3)
       (onModelSelect
          (onLoad "lowerlimb_2_polarized" (mkGltf (vec3 2 2 2) (vec3 0 0 0) 2)
             (pageLoad (A := Q)))))
  = 12 # 10.
Proof.
  exact (proj1 (proj2 (@unlisted_model_inherits_light Q _
                         "lowerlimb_2_polarized" "skull"
                         (mkGltf (vec3 2 2 2) (vec3 0 0 0) 2)
                         (mkGltf (vec3 1 2 4) (vec3 0 1 0) 3)
                         (75 # 100) (12 # 10) pageLoad eq_refl eq_refl))).
Defined.

(** ** The name shown by pointer selection *)

Lemma replaceUnderscores_app (s1 s2 : string) :
  replaceUnderscores (s1 ++ s2) = (replaceUnderscores s1 ++ replaceUnderscores s2)%string.
Proof. induction s1 as [| c s1 IH]; cbn; [reflexivity | now rewrite IH]. Qed.

(** X13. Replacing underscores a second time changes nothing, a name
    without underscores is shown as it is (and only such names are), and the
    replacement of a concatenation is the concatenation of the
    replacements. *)
Theorem replaceUnderscores_idempotent (s1 s2 : string) :
  replaceUnderscores (replaceUnderscores s1) = replaceUnderscores s1 /\
  (replaceUnderscores s1 = s1 <->
   forall i, String.get i s1 <> Some "_"%char) /\
  replaceUnderscores (s1 ++ s2) = (replaceUnderscores s1 ++ replaceUnderscores s2)%string.
Proof.
  split; [| split; [| apply replaceUnderscores_app]].
  - induction s1 as [| c s IH]; cbn; [reflexivity |].
    rewrite IH. f_equal. unfold underscoreToSpace.
    destruct (Ascii.eqb_spec c "_"%char); [reflexivity |].
    destruct (Ascii.eqb_spec c "_"%char); [contradiction | reflexivity].
  - split.
    + intros E i Hi. rewrite <- E in Hi.
      rewrite PointerFacts.replaceUnderscores_get in Hi.
      destruct (String.get i s1) as [c |]; [| discriminate].
      cbn in Hi. injection Hi as Hi.
      exact (PointerFacts.underscoreToSpace_clean c Hi).
    + induction s1 as [| c s IH]; intros Hno; cbn; [reflexivity |].
      rewrite IH by (intros i; exact (Hno (S i))). f_equal.
      unfold underscoreToSpace. destruct (Ascii.eqb_spec c "_"%char) as [-> |];
        [| reflexivity].
      exfalso. exact (Hno 0%nat eq_refl).
Qed.

End BrowserExtras.

(** * Pointer selection, from the click to the name shown *)

Module PointerSelection.
Import Browser.

(** One coordinate of the projection: [(c - l) / w * 2 - 1]. *)
Lemma projection_affine (c l w : Q) :
  0 < w -> ((c - l) / w * 2 - 1 + 1) * w == 2 * (c - l).
Proof. intros Hw. field. lra. Qed.

Lemma projection_range (c l w : Q) :
  0 < w ->
  (l <= c /\ c <= l + w <->
   - (1) <= (c - l) / w * 2 - 1 /\ (c - l) / w * 2 - 1 <= 1).
Proof.
  intros Hw. pose proof (projection_affine c l Hw) as Ha.
  set (x := (c - l) / w * 2 - 1) in *. split.
  - intros [H1 H2].
    destruct (@BrowserExtras.unit_fraction (c - l) w Hw) as [F0 F1]; [lra | lra |].
    unfold x. split; lra.
  - intros [H1 H2].
    assert (P0 : 0 <= (x + 1) * w)
      by (apply Qmult_le_0_compat; lra).
    assert (P1 : (x + 1) * w <= 2 * w)
      by (apply Qmult_le_compat_r; lra).
    split; lra.
Qed.

Lemma projection_edge (c l w k : Q) :
  0 < w -> ((c - l) / w * 2 - 1 == 2 * k - 1 <-> c == l + k * w).
Proof.
  intros Hw. pose proof (projection_affine c l Hw) as Ha.
  set (x := (c - l) / w * 2 - 1) in *. split; intros E.
  - rewrite E in Ha. lra.
  - unfold x. rewrite E. field. lra.
Qed.

(** C8. On pointer-down the pointer position is projected into the
    camera's view: over a canvas rectangle of positive size the pointer
    handed to the ray cast is the affine image of the click that sends the
    left edge to x = -1, the right edge to x = 1, the top edge to y = 1 and
    the bottom edge to y = -1 (and only these), a click to a point of the
    square [-1,1] x [-1,1] exactly when it is inside the rectangle, and
    different pixels to different pointers.  That pointer, the camera and
    all of [scene.children] go to the ray cast; if there is a hit and the
    nearest object's name is not ["Mesh"], the info element is displayed
    with that name, every underscore replaced by a space; if the name is
    ["Mesh"] or nothing is hit, the info element is hidden. *)
Theorem pointer_selection_shows_name :
  (forall (e e' : PointerEvent (A := Q)) (rect : DOMRect),
     0 < width rect -> 0 < height rect ->
     (clientX e == left rect <-> px (pointerOf e rect) == - (1)) /\
     (clientX e == left rect + width rect <-> px (pointerOf e rect) == 1) /\
     (clientY e == top rect <-> py (pointerOf e rect) == 1) /\
     (clientY e == top rect + height rect <-> py (pointerOf e rect) == - (1)) /\
     (left rect <= clientX e /\ clientX e <= left rect + width rect <->
      - (1) <= px (pointerOf e rect) /\ px (pointerOf e rect) <= 1) /\
     (top rect <= clientY e /\ clientY e <= top rect + height rect <->
      - (1) <= py (pointerOf e rect) /\ py (pointerOf e rect) <= 1) /\
     px (pointerOf e' rect) - px (pointerOf e rect)
       == 2 * (clientX e' - clientX e) / width rect /\
     py (pointerOf e' rect) - py (pointerOf e rect)
       == - (2 * (clientY e' - clientY e) / height rect) /\
     (clientX e < clientX e' -> px (pointerOf e rect) < px (pointerOf e' rect)) /\
     (clientY e < clientY e' -> py (pointerOf e' rect) < py (pointerOf e rect))) /\
  (forall (A : Type) (H : Number A)
          (intersectObjects :
             Vector2 (A := A) -> Camera A -> list (SceneNode (A := A)) ->
             list Intersection)
          (e : PointerEvent) (rect : DOMRect) (s : State),
     let hits := intersectObjects (pointerOf e rect) (camera s) (children s) in
     let s' := onPointerDown intersectObjects e rect s in
     (forall hit rest, hits = hit :: rest -> hitName hit <> "Mesh"%string ->
        infoDisplay s' = DisplayBlock /\
        infoText s' = replaceUnderscores (hitName hit) /\
        String.length (infoText s') = String.length (hitName hit) /\
        (forall i c, String.get i (hitName hit) = Some c ->
           String.get i (infoText s') =
             Some (if Ascii.eqb c "_"%char then " "%char else c)) /\
        (forall i, String.get i (infoText s') <> Some "_"%char)) /\
     (forall hit rest, hits = hit :: rest -> hitName hit = "Mesh"%string ->
        infoDisplay s' = DisplayNone /\ infoText s' = infoText s) /\
     (hits = [] -> infoDisplay s' = DisplayNone /\ infoText s' = infoText s) /\
     (children s' = children s /\ camera s' = camera s /\ target s' = target s /\
      spinner s' = spinner s /\ loadingBar s' = loadingBar s /\
      loadingProgress s' = loadingProgress s)).
Proof.
  split.
  - intros [cx cy] [cx' cy'] [l t w h].
    cbv [pointerOf px py clientX clientY left top width height
         int lit nadd nsub nmul ndiv nopp Number_Q].
    intros Hw Hh.
    assert (Hw0 : ~ w == 0) by lra. assert (Hh0 : ~ h == 0) by lra.
    pose proof (projection_edge cx l 0 Hw) as Xl.
    pose proof (projection_edge cx l 1 Hw) as Xr.
    pose proof (projection_edge cy t 0 Hh) as Yt.
    pose proof (projection_edge cy t 1 Hh) as Yb.
    pose proof (projection_range cx l Hw) as Xin.
    pose proof (projection_range cy t Hh) as Yin.
    set (x := (cx - l) / w * 2 - 1) in *. set (y := (cy - t) / h * 2 - 1) in *.
    assert (Ey : - ((cy - t) / h) * 2 + 1 == - y) by (unfold y; ring).
    assert (Ey' : - ((cy' - t) / h) * 2 + 1 == - ((cy' - t) / h * 2 - 1)) by ring.
    rewrite Ey, Ey'.
    split; [split; intros E; [apply Xl; lra | apply Xl in E; lra] |].
    split; [split; intros E; [apply Xr; lra | apply Xr in E; lra] |].
    split; [split; intros E; [assert (Y0 : y == 2 * 0 - 1) by (apply Yt; lra); lra
                             | assert (Y0 : y == 2 * 0 - 1) by lra;
                               apply Yt in Y0; lra] |].
    split; [split; intros E; [assert (Y1 : y == 2 * 1 - 1) by (apply Yb; lra); lra
                             | assert (Y1 : y == 2 * 1 - 1) by lra;
                               apply Yb in Y1; lra] |].
    split; [exact Xin |].
    split; [split; intros E; [apply Yin in E; lra | apply Yin; lra] |].
    split; [unfold x; field; exact Hw0 |].
    split; [unfold y; field; exact Hh0 |].
    split; intros Hlt.
    + pose proof (@BrowserExtras.fraction_increasing (cx - l) (cx' - l) w Hw).
      unfold x. lra.
    + pose proof (@BrowserExtras.fraction_increasing (cy - t) (cy' - t) h Hh).
      unfold y. lra.
  - intros A H intersectObjects e rect s.
    apply PointerFacts.pointer_selection_display.
Qed.

Lemma pointer_selection_shows_name_witness :
  px (pointerOf (mkPointerEvent 800 0) (mkRect 0 0 800 600)) == 1 /\
  py (pointerOf (mkPointerEvent 800 0) (mkRect 0 0 800 600)) == 1.
Proof.
  destruct (proj1 pointer_selection_shows_name
              (mkPointerEvent 800 0) (mkPointerEvent 0 600) (mkRect 0 0 800 600)
              eq_refl eq_refl) as [_ [Hr [Ht _]]].
  split; [apply Hr | apply Ht]; reflexivity.
Defined.

End PointerSelection.

(** * Further properties of the quiz *)

Module QuizExtras.
Import Quiz QuizFacts.
Local Open Scope nat_scope.

(** The position of the first button that carries the text [a]. *)
Fixpoint indexOf (a : string) (l : list string) : nat :=
  match l with
  | [] => 0
  | x :: l' => if String.eqb a x then 0 else S (indexOf a l')
  end.

(** Every question lists its stored answer among its options. *)
Definition answerable (quizData : list Question) : bool :=
  forallb (fun q => existsb (String.eqb (answer q)) (options q)) quizData.

(** The clicks of a candidate who knows every answer. *)
Definition perfectClicks (quizData : list Question) : list Event :=
  map (fun q => ClickOption (indexOf (answer q) (options q))) quizData.

Lemma indexOf_nth_error (a : string) (l : list string) :
  existsb (String.eqb a) l = true -> nth_error l (indexOf a l) = Some a.
Proof.
  induction l as [| x l IH]; cbn; [discriminate |].
  destruct (String.eqb_spec a x) as [-> | Hne]; cbn; [reflexivity | exact IH].
Qed.

Lemma skipn_cons_inv {X : Type} (l : list X) (k : nat) (x : X) (rest : list X) :
  skipn k l = x :: rest ->
  nth_error l k = Some x /\ skipn (S k) l = rest /\
  List.length l = k + S (List.length rest).
Proof.
  revert k. induction l as [| y l IH]; intros [| k] Hk; cbn in *; try discriminate.
  - injection Hk as -> ->. repeat split; reflexivity.
  - destruct (IH k Hk) as [Hn [Hs Hl]]. repeat split; [exact Hn | | lia].
    destruct l; [destruct k; discriminate | exact Hs].
Qed.

Section Facts.
Variable quizData : list Question.

(** What the page shows is what the counters say: the question at
    [currentQuestion] with exactly its options, or the result page with an
    empty question line and the stored answers in order. *)
Definition pageShows (s : State) : Prop :=
  match optionsElement s with
  | Buttons texts =>
      exists q, nth_error quizData (currentQuestion s) = Some q /\
                questionText s = question q /\ texts = options q
  | Result _ _ answers =>
      questionText s = EmptyString /\ answers = map answer quizData /\
      currentQuestion s = List.length quizData
  end.

Lemma selectAnswer_pageShows (text : string) (s s' : State) :
  currentQuestion s < List.length quizData ->
  selectAnswer quizData text s = Some s' -> pageShows s'.
Proof.
  intros Hlt Hsel.
  destruct (nth_error quizData (currentQuestion s)) as [q |] eqn:Hq;
    [| apply nth_error_None in Hq; lia].
  destruct (@selectAnswer_cases quizData text s q Hq) as [Hnext Hlast].
  destruct (Nat.lt_ge_cases (S (currentQuestion s)) (List.length quizData)) as [Hl | Hl].
  - destruct (Hnext Hl) as [q' [Hq' E]]. rewrite E in Hsel. injection Hsel as <-.
    exists q'. cbn. repeat split; try reflexivity; exact Hq'.
  - rewrite (Hlast Hl) in Hsel. injection Hsel as <-. cbn.
    repeat split; lia.
Qed.

Lemma handle_pageShows (e : Event) (s s' : State) :
  pageShows s -> handle quizData e s = Some s' -> pageShows s'.
Proof.
  intros Hp Hh. unfold handle in Hh.
  destruct e as [i |]; destruct (optionsElement s) as [texts | sc tot ans] eqn:Hopt;
    try (injection Hh as <-; exact Hp).
  - destruct (nth_error texts i) as [text |]; [| injection Hh as <-; exact Hp].
    unfold pageShows in Hp. rewrite Hopt in Hp. destruct Hp as [q [Hq _]].
    apply (@selectAnswer_pageShows text s s'); [| exact Hh].
    apply nth_error_Some. rewrite Hq. discriminate.
  - unfold retakeQuiz, showQuestion in Hh. cbn [currentQuestion score] in Hh.
    destruct (nth_error quizData 0) as [q |] eqn:Hq; [| discriminate].
    injection Hh as <-. exists q. cbn. repeat split; try reflexivity; exact Hq.
Qed.

(** X14. After every sequence of clicks, the page shows the question that
    [currentQuestion] points to together with exactly its options as
    buttons, or, at the end, the result page with an empty question line and
    the stored answers in their order. *)
Theorem page_shows_current_question (es : list Event) (s0 s : State) :
  start quizData = Some s0 -> runEvents quizData es s0 = Some s ->
  match optionsElement s with
  | Buttons texts =>
      exists q, nth_error quizData (currentQuestion s) = Some q /\
                questionText s = question q /\ texts = options q
  | Result _ _ answers =>
      questionText s = EmptyString /\ answers = map answer quizData /\
      currentQuestion s = List.length quizData
  end.
Proof.
  intros Hstart Hrun.
  assert (H0 : pageShows s0).
  { unfold start, showQuestion in Hstart. cbn [currentQuestion score] in Hstart.
    destruct (nth_error quizData 0) as [q |] eqn:Hq; [| discriminate].
    injection Hstart as <-. exists q. cbn. repeat split; try reflexivity; exact Hq. }
  clear Hstart. revert s0 H0 Hrun.
  induction es as [| e es IH]; intros s0 H0 Hrun; cbn in Hrun.
  - injection Hrun as <-. exact H0.
  - destruct (handle quizData e s0) as [s1 |] eqn:Hh; [| discriminate].
    exact (IH s1 (@handle_pageShows e s0 s1 H0 Hh) Hrun).
Qed.

(** X15. The handlers throw exactly when they index past the data:
    [selectAnswer] throws if and only if [currentQuestion] is not below
    [quizData.length] (the quiz is over), and [retakeQuiz] and the initial
    [showQuestion] throw if and only if [quizData] is empty. *)
Theorem handlers_throw_past_the_end (text : string) (s : State) :
  (selectAnswer quizData text s = None
     <-> List.length quizData <= currentQuestion s) /\
  (retakeQuiz quizData s = None <-> quizData = []) /\
  (start quizData = None <-> quizData = []).
Proof.
  split; [| split].
  - split.
    + intros Hnone. destruct (Nat.lt_ge_cases (currentQuestion s) (List.length quizData))
        as [Hlt | Hge]; [| exact Hge].
      destruct (nth_error quizData (currentQuestion s)) as [q |] eqn:Hq;
        [| apply nth_error_None in Hq; exact Hq].
      destruct (@selectAnswer_cases quizData text s q Hq) as [Hnext Hlast].
      destruct (Nat.lt_ge_cases (S (currentQuestion s)) (List.length quizData)) as [Hl | Hl].
      * destruct (Hnext Hl) as [q' [_ E]]. rewrite E in Hnone. discriminate.
      * rewrite (Hlast Hl) in Hnone. discriminate.
    + intros Hge. unfold selectAnswer.
      now rewrite (proj2 (nth_error_None quizData (currentQuestion s)) Hge).
  - unfold retakeQuiz, showQuestion. cbn.
    destruct quizData as [| q qs]; cbn; split; intros; try reflexivity; discriminate.
  - unfold start, showQuestion. cbn.
    destruct quizData as [| q qs]; cbn; split; intros; try reflexivity; discriminate.
Qed.

(** Clicking the right button on every remaining question, starting on the
    page of question [q]. *)
Lemma perfect_run (rest : list Question) :
  forall (q : Question) (s : State),
  skipn (currentQuestion s) quizData = q :: rest ->
  optionsElement s = Buttons (options q) ->
  answerable (q :: rest) = true ->
  exists s', runEvents quizData (perfectClicks (q :: rest)) s = Some s' /\
    score s' = score s + S (List.length rest) /\
    currentQuestion s' = List.length quizData /\
    optionsElement s' = Result (score s') (List.length quizData) (map answer quizData).
Proof.
  induction rest as [| q' rest IH]; intros q s Hskip Hopt Hans;
    destruct (skipn_cons_inv _ _ Hskip) as [Hq [Hrest Hlen]];
    cbn in Hans; apply andb_prop in Hans; destruct Hans as [Ha Hans];
    destruct (@selectAnswer_cases quizData (answer q) s q Hq) as [Hnext Hlast];
    rewrite String.eqb_refl in Hnext, Hlast;
    cbn [perfectClicks map runEvents]; unfold handle at 1; rewrite Hopt;
    rewrite (indexOf_nth_error _ _ Ha).
  - rewrite Hlast by (cbn in Hlen; lia). cbn [runEvents].
    eexists. split; [reflexivity |]. cbn. repeat split; cbn in Hlen; lia.
  - destruct Hnext as [q'' [Hq'' ->]]; [cbn in Hlen; lia |].
    destruct (skipn_cons_inv _ _ Hrest) as [Hq2 _].
    assert (q'' = q') by congruence. subst q''.
    destruct (IH q' (mkState (S (currentQuestion s)) (S (score s)) (question q')
                       (Buttons (options q'))))
      as [s' [Hrun [Hsc [Hcq Hres]]]]; [exact Hrest | reflexivity | exact Hans |].
    exists s'. split; [exact Hrun |]. cbn in Hsc. cbn [List.length].
    repeat split; [lia | exact Hcq | exact Hres].
Qed.

(** X16. If every question lists its stored answer among its options, the
    full score can be reached: clicking, for each question in turn, the
    first button that carries the stored answer ends on the result page
    showing [quizData.length] out of [quizData.length]. *)
Theorem perfect_score_reachable :
  quizData <> [] -> answerable quizData = true ->
  exists s0 s, start quizData = Some s0 /\
    runEvents quizData (perfectClicks quizData) s0 = Some s /\
    score s = List.length quizData /\
    optionsElement s =
      Result (List.length quizData) (List.length quizData) (map answer quizData).
Proof.
  intros Hne Hans.
  assert (Hdata : exists q rest, quizData = q :: rest)
    by (destruct quizData as [| q rest]; [contradiction | eauto]).
  destruct Hdata as [q [rest Hdata]].
  assert (Hstart : start quizData
                   = Some (mkState 0 0 (question q) (Buttons (options q))))
    by (unfold start, showQuestion; rewrite Hdata; reflexivity).
  assert (Hl : List.length quizData = S (List.length rest))
    by (rewrite Hdata; reflexivity).
  destruct (@perfect_run rest q (mkState 0 0 (question q) (Buttons (options q))))
    as [s [Hrun [Hsc [_ Hres]]]].
  - cbn [currentQuestion skipn]. exact Hdata.
  - reflexivity.
  - rewrite <- Hdata. exact Hans.
  - exists (mkState 0 0 (question q) (Buttons (options q))), s.
    split; [exact Hstart |].
    replace (perfectClicks quizData) with (perfectClicks (q :: rest))
      by (rewrite Hdata; reflexivity).
    split; [exact Hrun |]. cbn [score] in Hsc.
    split; [lia |]. rewrite Hres, Hsc, Hl. reflexivity.
Qed.

End Facts.

Lemma page_shows_current_question_witness :
  match start lowerlimbQuizData with
  | Some s0 =>
      match runEvents lowerlimbQuizData [ClickOption 1; ClickOption 0] s0 with
      | Some s =>
          match optionsElement s with
          | Buttons texts =>
              exists q, nth_error lowerlimbQuizData (currentQuestion s) = Some q /\
                        questionText s = question q /\ texts = options q
          | Result _ _ answers =>
              questionText s = EmptyString /\
              answers = map answer lowerlimbQuizData /\
              currentQuestion s = List.length lowerlimbQuizData
          end
      | None => False
      end
  | None => False
  end.
Proof.
  destruct (start lowerlimbQuizData) as [s0 |] eqn:Hs0; [| discriminate Hs0].
  destruct (runEvents lowerlimbQuizData [ClickOption 1; ClickOption 0] s0)
    as [s |] eqn:Hrun.
  - exact (@page_shows_current_question lowerlimbQuizData
             [ClickOption 1; ClickOption 0] s0 s Hs0 Hrun).
  - injection Hs0 as <-. discriminate Hrun.
Defined.

Lemma perfect_score_reachable_witness :
  exists s0 s, start lowerlimbQuizData = Some s0 /\
    runEvents lowerlimbQuizData (perfectClicks lowerlimbQuizData) s0 = Some s /\
    score s = List.length lowerlimbQuizData /\
    optionsElement s =
      Result (List.length lowerlimbQuizData) (List.length lowerlimbQuizData)
             (map answer lowerlimbQuizData).
Proof.
  refine (@perfect_score_reachable lowerlimbQuizData _ _);
    [discriminate | reflexivity].
Defined.

(** Both shipped question sets list every stored answer among the options. *)
Example shipped_quizzes_answerable :
  answerable upperlimbQuizData = true /\ answerable lowerlimbQuizData = true.
Proof. split; vm_compute; reflexivity. Qed.

End QuizExtras.


(** * The stepper-motor sketch ([steppermotor_button_steps.ino])

    [AccelStepper] belongs to a library: [move(n)] sets the target [n] steps
    from the current position, [runToPosition()] blocks until the motor has
    reached the target.  Positions are [long], 32 bits on the board. *)

Module Stepper.
Local Open Scope Z_scope.

(** Two's-complement wrap-around of a 32-bit [long]. *)
Definition wrapLong (z : Z) : Z := (z + 2 ^ 31) mod 2 ^ 32 - 2 ^ 31.

Record State : Type := mkState {
  currentPos : Z;      (* stepper.currentPosition() *)
  targetPos : Z;       (* stepper.targetPosition() *)
  maxSpeed : Z;        (* steps per second *)
  acceleration : Z;    (* steps per second per second *)
  waited : Z           (* milliseconds spent in delay() *)
}.

(** The motor as constructed, before [setup]: at rest at position 0.  The
    library's initial speed limit and acceleration are overwritten by
    [setup] and stay parameters here. *)
Definition powerOn (maxSpeed0 acceleration0 : Z) : State :=
  mkState 0 0 maxSpeed0 acceleration0 0.

Definition setup (s : State) : State :=
  mkState (currentPos s) (targetPos s) 50 20 (waited s).

Definition move (relative : Z) (s : State) : State :=
  mkState (currentPos s) (wrapLong (currentPos s + relative))
          (maxSpeed s) (acceleration s) (waited s).

Definition runToPosition (s : State) : State :=
  mkState (targetPos s) (targetPos s) (maxSpeed s) (acceleration s) (waited s).

Definition delay (ms : Z) (s : State) : State :=
  mkState (currentPos s) (targetPos s) (maxSpeed s) (acceleration s) (waited s + ms).

(** One pass of [loop]; [buttonState] is what [digitalRead(12)] returned
    ([true] for HIGH). *)
Definition loop (buttonState : bool) (s : State) : State :=
  if buttonState then delay 500 (runToPosition (move 4 s)) else s.

Definition run (readings : list bool) (s : State) : State :=
  fold_left (fun s b => loop b s) readings s.

(** The number of passes that read HIGH. *)
Definition presses (readings : list bool) : Z :=
  Z.of_nat (List.length (filter (fun b => b) readings)).

Lemma wrapLong_small (z : Z) : - 2 ^ 31 <= z < 2 ^ 31 -> wrapLong z = z.
Proof.
  intros Hz. unfold wrapLong. rewrite Z.mod_small; lia.
Qed.

Lemma run_from (readings : list bool) (s : State) :
  currentPos s = targetPos s -> 0 <= currentPos s ->
  currentPos s + 4 * presses readings < 2 ^ 31 ->
  currentPos (run readings s) = currentPos s + 4 * presses readings /\
  targetPos (run readings s) = currentPos (run readings s) /\
  waited (run readings s) = waited s + 500 * presses readings /\
  maxSpeed (run readings s) = maxSpeed s /\
  acceleration (run readings s) = acceleration s.
Proof.
  revert s. induction readings as [| b readings IH]; intros s Hrest Hpos Hbound.
  - unfold presses. cbn. repeat split; lia.
  - unfold run. cbn [fold_left]. fold (run readings (loop b s)).
    destruct b.
    + assert (Hp : presses (true :: readings) = 1 + presses readings)
        by (unfold presses; cbn [filter List.length]; lia).
      assert (Hn : 0 <= presses readings) by (unfold presses; lia).
      rewrite Hp in *.
      assert (Hw : wrapLong (currentPos s + 4) = currentPos s + 4)
        by (apply wrapLong_small; lia).
      assert (E1 : currentPos (loop true s) = currentPos s + 4) by exact Hw.
      assert (E2 : targetPos (loop true s) = currentPos s + 4) by exact Hw.
      assert (E3 : waited (loop true s) = waited s + 500) by reflexivity.
      assert (E4 : maxSpeed (loop true s) = maxSpeed s) by reflexivity.
      assert (E5 : acceleration (loop true s) = acceleration s) by reflexivity.
      destruct (IH (loop true s)) as [Hc [Ht [Hwt [Hm Ha]]]];
        [rewrite E1, E2; reflexivity | rewrite E1; lia | rewrite E1; lia |].
      rewrite Ht, Hc, Hwt, Hm, Ha, E1, E3, E4, E5. repeat split; lia.
    + assert (Hp : presses (false :: readings) = presses readings) by reflexivity.
      rewrite Hp in *. cbn [loop]. apply IH; assumption.
Qed.

(** X18. After [setup] and any number of passes of [loop], the motor is at
    rest at 4 steps times the number of passes that read the button HIGH
    (as long as that stays below 2^31): it never turns while the button is
    low and never turns back; each press also costs half a second of
    waiting, and speed limit and acceleration stay as [setup] put them. *)
Theorem four_steps_per_press (readings : list bool) (maxSpeed0 acceleration0 : Z) :
  4 * presses readings < 2 ^ 31 ->
  currentPos (run readings (setup (powerOn maxSpeed0 acceleration0))) = 4 * presses readings /\
  targetPos (run readings (setup (powerOn maxSpeed0 acceleration0))) = 4 * presses readings /\
  waited (run readings (setup (powerOn maxSpeed0 acceleration0))) = 500 * presses readings /\
  maxSpeed (run readings (setup (powerOn maxSpeed0 acceleration0))) = 50 /\
  acceleration (run readings (setup (powerOn maxSpeed0 acceleration0))) = 20.
Proof.
  intros Hb.
  destruct (@run_from readings (setup (powerOn maxSpeed0 acceleration0)))
    as [Hc [Ht [Hw [Hm Ha]]]];
    [reflexivity | cbn; lia | cbn [setup powerOn currentPos]; lia |].
  rewrite Ht, Hc, Hw, Hm, Ha. cbn [setup powerOn currentPos waited maxSpeed acceleration].
  repeat split; lia.
Qed.

Lemma four_steps_per_press_witness :
  currentPos (run [true; false; true; true; false] (setup (powerOn 1 1)))
  = 4 * presses [true; false; true; true; false].
Proof.
  refine (proj1 (@four_steps_per_press [true; false; true; true; false] 1 1 _)).
  vm_compute. reflexivity.
Defined.

End Stepper.
